(** * gpio-dbus: the GPIO chip daemon of libgpiod, embedded in Rocq

    The development follows [src/dbus/gpio-dbus.c].  The daemon is a
    single-threaded GLib main loop whose callbacks mutate one
    [MainLoopCtx] and talk to three libraries: libgpiod (chip handles),
    GDBus (bus objects) and GUdev (device enumeration and uevents).

    The embedding is a state-and-halt monad over a [State] that holds the
    process' own data (the context struct, the heap blocks of [ChipCtx])
    together with the part of the libraries' state the daemon can
    observe (open chip handles, exported bus objects, connected signal
    handlers) and a chronological trace of the calls that leave the
    process. *)

From stdpp Require Import gmap strings list fin_maps.

Local Open Scope string_scope.

(** ** Data model *)

(** Addresses.  A [ChipCtx*] is the address of a heap block; a
    [struct gpiod_chip*] identifies an open chip.  NULL is [None]. *)
Abbreviation ptr := positive (only parsing).
Abbreviation gpiod_chip := positive (only parsing).
Abbreviation GDBusConnection := positive (only parsing).
Abbreviation guint := N (only parsing).

(** [typedef struct ChipCtx] *)
Record ChipCtx := mkChipCtx {
  handle : option gpiod_chip;
  obj_id : guint;
  dbus_conn : option GDBusConnection;
}.

(** [typedef struct MainLoopCtx].  [loop], [udev] and [introspect] point
    to library objects; what the daemon can observe of them (whether the
    loop runs, how many uevent handlers are connected) is kept in
    [State], so the struct only records whether [introspect] was set. *)
Record MainLoopCtx := mkMainLoopCtx {
  bus : option GDBusConnection;
  bus_id : guint;
  chips : gmap string ptr;
  introspect : bool;
}.

(** What the daemon reads of a [GUdevDevice]: [g_udev_device_get_name]
    and [g_udev_device_get_device_file] (NULL when there is none). *)
Record GUdevDevice := mkDev {
  g_udev_device_get_name : string;
  g_udev_device_get_device_file : option string;
}.

(** What an open chip reports through libgpiod. *)
Record ChipInfo := mkChipInfo {
  info_name : string;
  info_label : string;
  info_num_lines : N;
}.

(** [GLogLevelFlags], the levels the daemon uses. *)
Inductive LogLevel := LevelCritical | LevelWarning | LevelMessage | LevelDebug.

(** Calls that leave the process, in the order they are made.  A log
    record keeps the format string and those of its arguments that the
    model has: [strerror(errno)] and the messages of the option parser's
    and the XML parser's errors are left out. *)
Inductive Event :=
| EvLog (lvl : LogLevel) (fmt : string) (args : list string)
| EvChipOpen (devname : string) (res : option gpiod_chip)
| EvChipClose (h : gpiod_chip)
| EvRegisterObject (path : string) (user_data : ptr) (res : guint)
| EvUnregisterObject (id : guint)
| EvSignalConnect (signal : string)
| EvQueryBySubsystem (subsystem : string)
| EvOwnName (name : string)
| EvUnownName (id : guint)
| EvLoopQuit.

Global Instance LogLevel_eq_dec : EqDecision LogLevel.
Proof. solve_decision. Defined.
Global Instance Event_eq_dec : EqDecision Event.
Proof. solve_decision. Defined.

Record State := mkState {
  ctx : MainLoopCtx;
  heap : gmap ptr ChipCtx;
  open_chips : gmap gpiod_chip ChipInfo;
  bus_objects : gmap guint (string * ptr);
  uevent_handlers : nat;
  loop_running : bool;
  trace : list Event;
}.

Definition set_ctx (f : MainLoopCtx → MainLoopCtx) (s : State) : State :=
  mkState (f (ctx s)) (heap s) (open_chips s) (bus_objects s)
          (uevent_handlers s) (loop_running s) (trace s).
Definition set_heap (f : gmap ptr ChipCtx → gmap ptr ChipCtx) (s : State) : State :=
  mkState (ctx s) (f (heap s)) (open_chips s) (bus_objects s)
          (uevent_handlers s) (loop_running s) (trace s).
Definition set_open_chips (f : gmap gpiod_chip ChipInfo → gmap gpiod_chip ChipInfo)
    (s : State) : State :=
  mkState (ctx s) (heap s) (f (open_chips s)) (bus_objects s)
          (uevent_handlers s) (loop_running s) (trace s).
Definition set_bus_objects
    (f : gmap guint (string * ptr) → gmap guint (string * ptr)) (s : State) : State :=
  mkState (ctx s) (heap s) (open_chips s) (f (bus_objects s))
          (uevent_handlers s) (loop_running s) (trace s).
Definition set_uevent_handlers (f : nat → nat) (s : State) : State :=
  mkState (ctx s) (heap s) (open_chips s) (bus_objects s)
          (f (uevent_handlers s)) (loop_running s) (trace s).
Definition set_loop_running (b : bool) (s : State) : State :=
  mkState (ctx s) (heap s) (open_chips s) (bus_objects s)
          (uevent_handlers s) b (trace s).
Definition log_event (e : Event) (s : State) : State :=
  mkState (ctx s) (heap s) (open_chips s) (bus_objects s)
          (uevent_handlers s) (loop_running s) (trace s ++ [e]).

Definition set_chips (f : gmap string ptr → gmap string ptr) (c : MainLoopCtx) : MainLoopCtx :=
  mkMainLoopCtx (bus c) (bus_id c) (f (chips c)) (introspect c).
Definition set_bus (b : option GDBusConnection) (c : MainLoopCtx) : MainLoopCtx :=
  mkMainLoopCtx b (bus_id c) (chips c) (introspect c).
Definition set_bus_id (i : guint) (c : MainLoopCtx) : MainLoopCtx :=
  mkMainLoopCtx (bus c) i (chips c) (introspect c).
Definition set_introspect (b : bool) (c : MainLoopCtx) : MainLoopCtx :=
  mkMainLoopCtx (bus c) (bus_id c) (chips c) b.

(** [GError]; the daemon reads its [message]. *)
Record GError := mkGError {
  message : string;
}.

(** What lies outside the process and cannot be computed from [State]:
    whether the kernel lets a chip be opened (and what it then reports),
    whether the bus accepts an object at a path and, when it does not,
    the error it reports (none when the call fails on one of its
    preconditions, which returns 0 and leaves the error unset), which
    gpio devices udev lists, and whether a connection is closed.  Each
    may depend on the whole state at the moment of the call, so answers
    can change between two calls. *)
Record Platform := mkPlatform {
  chip_probe : string → State → option ChipInfo;
  bus_accepts : string → State → bool;
  bus_error : string → State → option GError;
  udev_gpio_devices : State → list GUdevDevice;
  connection_closed : GDBusConnection → State → bool;
}.

(** ** The monad: state, plus the ways a run ends early *)

Inductive Stop :=
| AssertionFailed            (* g_assert_true: abort() *)
| Exited (status : Z)        (* exit(status) *)
| InvalidAccess              (* use of NULL or of a freed block *)
| LoopIdle.                  (* the main loop waits for the next event *)

Inductive Outcome (A : Type) :=
| Ret (a : A) (s : State)
| Halt (why : Stop) (s : State).
Arguments Ret {A} a s.
Arguments Halt {A} why s.

Definition M (A : Type) : Type := State → Outcome A.

Global Instance M_ret : MRet M := λ A a s, Ret a s.
Global Instance M_bind : MBind M := λ A B f m s,
  match m s with
  | Ret a s' => f a s'
  | Halt why s' => Halt why s'
  end.

Definition final_state {A} (o : Outcome A) : State :=
  match o with Ret _ s => s | Halt _ s => s end.

Definition halt {A} (why : Stop) : M A := λ s, Halt why s.
Definition get_state : M State := λ s, Ret s s.
Definition modify (f : State → State) : M unit := λ s, Ret () (f s).
Definition emit (e : Event) : M unit := modify (log_event e).

Definition EXIT_SUCCESS : Z := 0.
Definition EXIT_FAILURE : Z := 1.

(** ** GLib primitives *)

(** [g_strcmp0]: only the sign matters, and it is 0 exactly on equal
    strings. *)
Definition g_strcmp0 (a b : string) : Z :=
  match String.compare a b with Eq => 0 | Lt => -1 | Gt => 1 end.

Definition g_log (lvl : LogLevel) (fmt : string) (args : list string) : M unit :=
  emit (EvLog lvl fmt args).
Definition g_debug := g_log LevelDebug.
Definition g_warning := g_log LevelWarning.
Definition g_message := g_log LevelMessage.

Definition g_assert_true (b : bool) : M unit :=
  if b then mret () else halt AssertionFailed.

(** [g_list_foreach] *)
Fixpoint g_list_foreach {A} (l : list A) (func : A → M unit) : M unit :=
  match l with
  | [] => mret ()
  | x :: rest => func x ;; g_list_foreach rest func
  end.

(** *** The heap blocks holding [ChipCtx] *)

Definition g_malloc0 : M ptr := λ s,
  let p := fresh (dom (heap s)) in
  Ret p (set_heap <[p := mkChipCtx None 0%N None]> s).

(** [chip->field] as an rvalue; a block that is not allocated cannot be
    read. *)
Definition read {A} (p : ptr) (field : ChipCtx → A) : M A := λ s,
  match heap s !! p with
  | Some c => Ret (field c) s
  | None => Halt InvalidAccess s
  end.

(** [chip->field = v] *)
Definition write (p : ptr) (upd : ChipCtx → ChipCtx) : M unit :=
  c ← read p id; modify (set_heap <[p := upd c]>).

Definition g_free (p : ptr) : M unit :=
  _ ← read p id; modify (set_heap (delete p)).

(** [p->field] for a pointer held in a local variable; NULL cannot be
    dereferenced. *)
Definition deref {A B} (p : option A) (field : A → B) : M B := λ s,
  match p with
  | Some a => Ret (field a) s
  | None => Halt InvalidAccess s
  end.

Definition with_handle (h : option gpiod_chip) (c : ChipCtx) : ChipCtx :=
  mkChipCtx h (obj_id c) (dbus_conn c).
Definition with_obj_id (i : guint) (c : ChipCtx) : ChipCtx :=
  mkChipCtx (handle c) i (dbus_conn c).
Definition with_dbus_conn (b : option GDBusConnection) (c : ChipCtx) : ChipCtx :=
  mkChipCtx (handle c) (obj_id c) b.

(** [GVariant], the two constructors the daemon uses. *)
Inductive GVariant :=
| VString (s : string)
| VUint32 (n : N).

Definition g_variant_new_string (s : string) : GVariant := VString s.
(** The argument is converted to [guint32]. *)
Definition g_variant_new_uint32 (n : N) : GVariant := VUint32 (n mod 2 ^ 32)%N.

(** What the service loop delivers to the daemon's callbacks. *)
Inductive LoopEvent :=
| SIGTERM
| SIGINT
| SIGHUP
| BusAcquired (conn : GDBusConnection) (name : string)
| NameAcquired (conn : GDBusConnection) (name : string)
| NameLost (conn : option GDBusConnection) (name : string)
| UEvent (action : string) (dev : GUdevDevice)
| PropertyGet (sender object interface property : string).

(** [argv] as far as [parse_opts] uses it: the program's name, whether
    [g_option_context_parse] meets a help option, whether it accepts the
    arguments otherwise, and whether [--debug] was given. *)
Record CmdLine := mkCmdLine {
  prgname : string;
  help_requested : bool;
  parse_ok : bool;
  opt_debug : bool;
}.

Definition initial_state : State :=
  mkState (mkMainLoopCtx None 0%N ∅ false) ∅ ∅ ∅ 0 false [].

Section Daemon.

(** The functions that ask the platform something take [P]; the others
    (closing, unregistering, the table, removal) do not depend on it. *)
Variable P : Platform.

(** ** The libraries, at the daemon's interface *)

(** Modelled from the spec: libgpiod's chip functions ([lib/] is not among
    the sources).  [open(name) -> handle | Error(OpenFailed)]; the handle
    is a new one, distinct from every handle still open.  [close] is
    idempotent and never fails observably.  [name], [label] and
    [lineCount] report what the chip says when asked; a handle that is
    not open cannot be queried. *)
Definition gpiod_chip_open_by_name (devname : string) : M (option gpiod_chip) := λ s,
  match chip_probe P devname s with
  | None => Ret None (log_event (EvChipOpen devname None) s)
  | Some info =>
      let h := fresh (dom (open_chips s)) in
      Ret (Some h)
          (log_event (EvChipOpen devname (Some h)) (set_open_chips <[h := info]> s))
  end.

Definition gpiod_chip_close (h : gpiod_chip) : M unit :=
  modify (set_open_chips (delete h)) ;; emit (EvChipClose h).

Definition gpiod_chip_query {A} (field : ChipInfo → A) (h : option gpiod_chip) : M A := λ s,
  match h with
  | Some h' =>
      match open_chips s !! h' with
      | Some info => Ret (field info) s
      | None => Halt InvalidAccess s
      end
  | None => Halt InvalidAccess s
  end.
Definition gpiod_chip_name := gpiod_chip_query info_name.
Definition gpiod_chip_label := gpiod_chip_query info_label.
Definition gpiod_chip_num_lines := gpiod_chip_query info_num_lines.

(** GDBus object registration.  The result is the returned id together
    with what the call leaves in [*error], which is NULL when the call
    is made.  A successful registration returns a new non-zero id, binds
    [user_data] to it and leaves the error alone; a failed one returns
    0, and sets the error unless it failed on a precondition. *)
Definition g_dbus_connection_register_object (conn : option GDBusConnection)
    (object_path : string) (user_data : ptr) : M (guint * option GError) := λ s,
  if bus_accepts P object_path s then
    let i := fresh ({[0%N]} ∪ dom (bus_objects s)) in
    Ret (i, None) (log_event (EvRegisterObject object_path user_data i)
                     (set_bus_objects <[i := (object_path, user_data)]> s))
  else
    Ret (0%N, bus_error P object_path s)
        (log_event (EvRegisterObject object_path user_data 0%N) s).

Definition g_dbus_connection_unregister_object (conn : option GDBusConnection)
    (registration_id : guint) : M bool := λ s,
  Ret (bool_decide (is_Some (bus_objects s !! registration_id)))
      (log_event (EvUnregisterObject registration_id)
         (set_bus_objects (delete registration_id) s)).

Definition g_main_loop_quit : M unit :=
  modify (set_loop_running false) ;; emit EvLoopQuit.

(** ** The daemon *)

(** [die]: logs at critical level and calls [exit(EXIT_FAILURE)]. *)
Definition die {A} (fmt : string) (args : list string) : M A :=
  g_log LevelCritical fmt args ;; halt (Exited EXIT_FAILURE).

Definition G_SOURCE_REMOVE : bool := false.
Definition G_SOURCE_CONTINUE : bool := true.

Definition on_sigterm : M bool :=
  g_debug "SIGTERM received" [] ;;
  g_main_loop_quit ;;
  mret G_SOURCE_REMOVE.

Definition on_sigint : M bool :=
  g_debug "SIGINT received" [] ;;
  g_main_loop_quit ;;
  mret G_SOURCE_REMOVE.

Definition on_sighup : M bool :=
  g_debug "SIGHUB received" [] ;;
  mret G_SOURCE_CONTINUE.

(** The result is the returned [GVariant*]; [None] is NULL.  [error] is
    never written. *)
Definition on_chip_property_get (sender object interface property : string)
    (user_data : ptr) : M (option GVariant) :=
  let chip := user_data in
  g_debug "property get - sender: %s, object: %s, interface: %s, property: %s"
          [sender; object; interface; property] ;;
  if (g_strcmp0 property "Name" =? 0)%Z then
    h ← read chip handle; v ← gpiod_chip_name h; mret (Some (g_variant_new_string v))
  else if (g_strcmp0 property "Label" =? 0)%Z then
    h ← read chip handle; v ← gpiod_chip_label h; mret (Some (g_variant_new_string v))
  else if (g_strcmp0 property "NumLines" =? 0)%Z then
    h ← read chip handle; v ← gpiod_chip_num_lines h; mret (Some (g_variant_new_uint32 v))
  else mret None.

Definition is_gpiochip_device (dev : GUdevDevice) : bool :=
  bool_decide (g_udev_device_get_device_file dev ≠ None).

Definition destroy_chip_object (data : ptr) : M unit :=
  let chip := data in
  h ← read chip handle;
  match h with
  | Some h' => gpiod_chip_close h'
  | None => mret ()
  end ;;
  i ← read chip obj_id;
  (if (i =? 0)%N then mret ()
   else conn ← read chip dbus_conn;
        g_dbus_connection_unregister_object conn i ;; mret ()) ;;
  g_free chip.

(** *** [ctx->chips]

    The table is created in [main] by [g_hash_table_new_full] with
    [destroy_chip_object] as the destructor of its values.  Keys are
    copies of the device name ([g_strdup], released by [g_free]). *)

(** An existing key keeps its slot: the value is replaced, the old value
    is destroyed, and the result is FALSE. *)
Definition g_hash_table_insert (key : string) (value : ptr) : M bool :=
  s ← get_state;
  modify (set_ctx (set_chips <[key := value]>)) ;;
  match chips (ctx s) !! key with
  | Some old => destroy_chip_object old ;; mret false
  | None => mret true
  end.

(** The entry leaves the table before its value is destroyed. *)
Definition g_hash_table_remove (key : string) : M bool :=
  s ← get_state;
  match chips (ctx s) !! key with
  | Some v =>
      modify (set_ctx (set_chips (delete key))) ;;
      destroy_chip_object v ;; mret true
  | None => mret false
  end.

Definition g_hash_table_destroy : M unit :=
  s ← get_state;
  modify (set_ctx (set_chips (λ _, ∅))) ;;
  g_list_foreach (map_to_list (chips (ctx s))) (λ kv, destroy_chip_object kv.2).

(** [ctx] is the one [MainLoopCtx] of [main]; it lives in the state.
    [err] is NULL until the registration writes it ([g_clear_error] on
    NULL does nothing), and the warning of a failed registration reads
    [err->message] without a test. *)
Definition register_chip_object (dev : GUdevDevice) : M unit :=
  let devname := g_udev_device_get_name dev in
  g_debug "creating a dbus object for %s" [devname] ;;
  chip ← g_malloc0;
  s ← get_state;
  write chip (with_dbus_conn (bus (ctx s))) ;;
  h ← gpiod_chip_open_by_name devname;
  write chip (with_handle h) ;;
  match h with
  | None =>
      destroy_chip_object chip ;;
      g_warning "error opening GPIO device %s: %s" [devname]
  | Some _ =>
      let obj_path := "/org/gpiod/" +:+ devname in
      '(i, err) ← g_dbus_connection_register_object (bus (ctx s)) obj_path chip;
      write chip (with_obj_id i) ;;
      if (i =? 0)%N then
        destroy_chip_object chip ;;
        msg ← deref err message;
        g_warning "error registering a dbus object: %s" [msg]
      else
        ret ← g_hash_table_insert devname chip;
        g_assert_true ret
  end.

Definition destroy_chip_dev (dev : GUdevDevice) : M unit :=
  let devname := g_udev_device_get_name dev in
  g_debug "removing a dbus object for %s" [g_udev_device_get_name dev] ;;
  ret ← g_hash_table_remove devname;
  g_assert_true ret.

(** [g_object_unref(dev)] only drops a reference and is not modelled. *)
Definition create_chip_list_cb (dev : GUdevDevice) : M unit :=
  if is_gpiochip_device dev then register_chip_object dev else mret ().

Definition on_uevent (action : string) (dev : GUdevDevice) : M unit :=
  if negb (is_gpiochip_device dev) then mret ()
  else
    g_debug "uevent: %s action on %s device" [action; g_udev_device_get_name dev] ;;
    if (g_strcmp0 action "add" =? 0)%Z then register_chip_object dev
    else if (g_strcmp0 action "remove" =? 0)%Z then destroy_chip_dev dev
    else g_warning "unknown action for uevent: %s" [action].

Definition on_bus_acquired (conn : GDBusConnection) (name : string) : M unit :=
  g_debug "DBus connection acquired" [] ;;
  modify (set_ctx (set_bus (Some conn))).

Definition g_signal_connect_uevent : M unit :=
  modify (set_uevent_handlers S) ;; emit (EvSignalConnect "uevent").

Definition g_udev_client_query_by_subsystem (subsystem : string) : M (list GUdevDevice) :=
  emit (EvQueryBySubsystem subsystem) ;;
  s ← get_state;
  mret (udev_gpio_devices P s).

Definition on_name_acquired (conn : GDBusConnection) (name : string) : M unit :=
  g_debug "DBus name acquired: '%s'" [name] ;;
  g_signal_connect_uevent ;;
  devs ← g_udev_client_query_by_subsystem "gpio";
  g_list_foreach devs create_chip_list_cb.

Definition g_dbus_connection_is_closed (conn : GDBusConnection) : M bool := λ s,
  Ret (connection_closed P conn s) s.

Definition on_name_lost (conn : option GDBusConnection) (name : string) : M unit :=
  g_debug "DBus name lost: '%s'" [name] ;;
  match conn with
  | None => die "unable to make connection to the bus" []
  | Some c =>
      closed ← g_dbus_connection_is_closed c;
      if (closed : bool) then die "connection to the bus closed, dying..." []
      else die "name '%s' lost on the bus, dying..." [name]
  end.

(** [g_option_context_parse] on a context created by
    [g_option_context_new], which has the automatic help enabled: a help
    option makes the call print the usage and [exit(0)]; otherwise the
    result tells whether the arguments were accepted. *)
Definition g_option_context_parse (cmd : CmdLine) : M bool :=
  if help_requested cmd then halt (Exited 0) else mret (parse_ok cmd).

(** If parsing succeeds and [--debug] was given, a handler that forwards
    debug and info records is installed; log sinks are not modelled. *)
Definition parse_opts (cmd : CmdLine) : M unit :=
  rv ← g_option_context_parse cmd;
  if negb rv then die "option parsing failed: %s" []
  else mret ().

(** *** The main loop

    GDBus resolves a property read by object path and hands the
    registered [user_data] to the interface's [get_property]. *)
Definition object_at (path : string) (s : State) : option ptr :=
  match list_find (λ kv : guint * (string * ptr), kv.2.1 = path)
                  (map_to_list (bus_objects s)) with
  | Some (_, (_, (_, user_data))) => Some user_data
  | None => None
  end.

(** One source becoming ready: its callback runs to completion.  A
    uevent reaches every handler connected to the signal. *)
Definition dispatch (e : LoopEvent) : M unit :=
  match e with
  | SIGTERM => on_sigterm ;; mret ()
  | SIGINT => on_sigint ;; mret ()
  | SIGHUP => on_sighup ;; mret ()
  | BusAcquired conn name => on_bus_acquired conn name
  | NameAcquired conn name => on_name_acquired conn name
  | NameLost conn name => on_name_lost conn name
  | UEvent action dev =>
      s ← get_state;
      g_list_foreach (replicate (uevent_handlers s) ()) (λ _, on_uevent action dev)
  | PropertyGet sender object interface property =>
      s ← get_state;
      match object_at object s with
      | Some user_data =>
          on_chip_property_get sender object interface property user_data ;; mret ()
      | None => mret ()
      end
  end.

(** Each iteration dispatches the sources that are ready, then looks at
    the loop's running flag.  With no iteration left the loop waits. *)
Fixpoint main_loop_iterate (iterations : list (list LoopEvent)) : M unit :=
  match iterations with
  | [] => halt LoopIdle
  | ready :: later =>
      g_list_foreach ready dispatch ;;
      s ← get_state;
      if loop_running s then main_loop_iterate later else mret ()
  end.

Definition g_main_loop_run (iterations : list (list LoopEvent)) : M unit :=
  modify (set_loop_running true) ;; main_loop_iterate iterations.

(** [g_bus_own_name] returns a non-zero owner id; the three callbacks it
    is given are the ones [dispatch] calls. *)
Definition g_bus_own_name (name : string) : M guint :=
  emit (EvOwnName name) ;; mret 1%N.

Definition g_bus_unown_name (owner_id : guint) : M unit :=
  emit (EvUnownName owner_id).

(** [main] starts from [initial_state], the context after [memset].
    Whether [g_dbus_node_info_new_for_xml] accepts [introspect_xml] is
    the argument [xml_ok]; the sources the loop polls (the three signals,
    the bus, udev) are the events of [iterations].  Creating the loop and
    the udev client and dropping the references at the end change
    nothing the daemon observes and are left out. *)
Definition main (cmd : CmdLine) (xml_ok : bool)
    (iterations : list (list LoopEvent)) : M Z :=
  parse_opts cmd ;;
  g_message "initiating %s" [prgname cmd] ;;
  modify (set_ctx (set_introspect xml_ok)) ;;
  (if negb xml_ok then die "error parsing the introspection xml: %s" []
   else mret ()) ;;
  i ← g_bus_own_name "org.gpiod";
  modify (set_ctx (set_bus_id i)) ;;
  modify (set_ctx (set_chips (λ _, ∅))) ;;
  g_message "%s started" [prgname cmd] ;;
  g_main_loop_run iterations ;;
  g_hash_table_destroy ;;
  s ← get_state;
  g_bus_unown_name (bus_id (ctx s)) ;;
  g_message "%s exiting cleanly" [prgname cmd] ;;
  mret EXIT_SUCCESS.

End Daemon.

(** The status the parent process sees: none while the daemon runs, and
    none when it was killed by [abort()] or by a fault. *)
Definition exit_status (o : Outcome Z) : option Z :=
  match o with
  | Ret status _ => Some status
  | Halt (Exited status) _ => Some status
  | Halt _ _ => None
  end.

(** ** The log writer

    [GLogLevelFlags] is a bit set; the values are GLib's
    ([G_LOG_FLAG_RECURSION] is bit 0, [G_LOG_FLAG_FATAL] bit 1, the
    levels bits 2 to 7). *)
Definition G_LOG_FLAG_RECURSION : Z := Z.shiftl 1 0.
Definition G_LOG_FLAG_FATAL : Z := Z.shiftl 1 1.
Definition G_LOG_LEVEL_ERROR : Z := Z.shiftl 1 2.
Definition G_LOG_LEVEL_CRITICAL : Z := Z.shiftl 1 3.
Definition G_LOG_LEVEL_WARNING : Z := Z.shiftl 1 4.
Definition G_LOG_LEVEL_MESSAGE : Z := Z.shiftl 1 5.
Definition G_LOG_LEVEL_INFO : Z := Z.shiftl 1 6.
Definition G_LOG_LEVEL_DEBUG : Z := Z.shiftl 1 7.

(** [lvl & flag] as a C condition. *)
Definition has_flag (lvl flag : Z) : bool := negb (Z.land lvl flag =? 0)%Z.

Definition log_level_to_priority (lvl : Z) : string :=
  if has_flag lvl G_LOG_LEVEL_ERROR then "0"
  else if has_flag lvl G_LOG_LEVEL_CRITICAL then "3"
  else if has_flag lvl G_LOG_LEVEL_WARNING then "4"
  else if has_flag lvl G_LOG_LEVEL_MESSAGE then "5"
  else if has_flag lvl G_LOG_LEVEL_INFO then "6"
  else if has_flag lvl G_LOG_LEVEL_DEBUG then "7"
  else "5".

(** [GLogField]: a key and a value, which may be NULL. *)
Record GLogField := mkField {
  key : string;
  value : option string;
}.

Inductive GLogWriterOutput := G_LOG_WRITER_HANDLED | G_LOG_WRITER_UNHANDLED.

Definition newline : string := String (Ascii.ascii_of_nat 10) EmptyString.

(** The loop of [log_write]: [msg] when it ends, the value of the first
    field whose key is MESSAGE, or NULL when there is none. *)
Fixpoint log_write_message (fields : list GLogField) : option string :=
  match fields with
  | [] => None
  | field :: rest =>
      if (g_strcmp0 (key field) "MESSAGE" =? 0)%Z then value field
      else log_write_message rest
  end.

(** [log_write]; [err] is what has been written to standard error, and
    [g_printerr] appends to it. *)
Definition log_write (lvl : Z) (fields : list GLogField) (err : string)
    : GLogWriterOutput * string :=
  match log_write_message fields with
  | None => (G_LOG_WRITER_UNHANDLED, err)
  | Some msg =>
      let prio := log_level_to_priority lvl in
      (G_LOG_WRITER_HANDLED, err +:+ "<" +:+ prio +:+ ">" +:+ msg +:+ newline)
  end.

(** ** Trying the model *)

Definition gpiochip0 : GUdevDevice := mkDev "gpiochip0" (Some "/dev/gpiochip0").
Definition gpiochip0_sysfs : GUdevDevice := mkDev "gpiochip0" None.
Definition gpiochip1 : GUdevDevice := mkDev "gpiochip1" (Some "/dev/gpiochip1").

(** A character device whose name has a character that object paths
    do not allow. *)
Definition gpio_chip0 : GUdevDevice := mkDev "gpio-chip0" (Some "/dev/gpio-chip0").

(** A machine on which every chip opens and every registration is
    accepted; udev lists two character devices and one sysfs-only one. *)
Definition friendly : Platform :=
  mkPlatform (λ name _, Some (mkChipInfo name ("label-" +:+ name) 32))
             (λ _ _, true) (λ _ _, None)
             (λ _, [gpiochip0; gpiochip0_sysfs; gpiochip1])
             (λ _ _, false).

(** A machine on which no chip opens. *)
Definition no_chips : Platform :=
  mkPlatform (λ _ _, None) (λ _ _, true) (λ _ _, None) (λ _, [gpiochip0]) (λ _ _, false).

(** A machine whose bus refuses every object, with an error. *)
Definition deaf_bus : Platform :=
  mkPlatform (λ name _, Some (mkChipInfo name "" 8))
             (λ _ _, false) (λ _ _, Some (mkGError "Permission denied"))
             (λ _, [gpiochip0]) (λ _ _, false).

(** [g_variant_is_object_path], as GLib documents it: a path starts with
    a slash; its elements are separated by single slashes, are not empty
    and consist of letters, digits and underscores; the root is the
    slash alone. *)
Definition slash : Ascii.ascii := Ascii.ascii_of_nat 47.

Definition is_path_char (c : Ascii.ascii) : bool :=
  let n := Ascii.N_of_ascii c in
  ((48 <=? n) && (n <=? 57) || (65 <=? n) && (n <=? 90) ||
   (97 <=? n) && (n <=? 122) || (n =? 95))%N.

Fixpoint path_elements (s : string) (nonempty : bool) : bool :=
  match s with
  | EmptyString => nonempty
  | String c rest =>
      if Ascii.eqb c slash then nonempty && path_elements rest false
      else is_path_char c && path_elements rest true
  end.

Definition g_variant_is_object_path (s : string) : bool :=
  match s with
  | EmptyString => false
  | String c EmptyString => Ascii.eqb c slash
  | String c rest => Ascii.eqb c slash && path_elements rest false
  end.

(** A machine whose bus answers as GDBus documents: an object is
    accepted at a valid object path at which none is exported; a path
    that is taken is refused with an error; an invalid path fails the
    precondition of the call, which returns 0 and sets no error.  The
    chips and the devices are those of the friendly machine. *)
Definition gdbus : Platform :=
  mkPlatform (λ name _, Some (mkChipInfo name ("label-" +:+ name) 32))
             (λ path st, g_variant_is_object_path path &&
                         bool_decide (object_at path st = None))
             (λ path st, if g_variant_is_object_path path
                         then Some (mkGError "An object is already exported")
                         else None)
             (λ _, [gpiochip0; gpiochip0_sysfs; gpiochip1])
             (λ _ _, false).

(** ** Vocabulary of the statements *)

(** The state after [gpiod_chip_close] when there is a handle, and after
    [g_dbus_connection_unregister_object] when there is an id. *)
Definition after_close (h : option gpiod_chip) (s : State) : State :=
  match h with
  | Some h' => log_event (EvChipClose h') (set_open_chips (delete h') s)
  | None => s
  end.

Definition after_unregister (i : guint) (s : State) : State :=
  if (i =? 0)%N then s
  else log_event (EvUnregisterObject i) (set_bus_objects (delete i) s).

Definition destroyed (p : ptr) (chip : ChipCtx) (s : State) : State :=
  set_heap (delete p) (after_unregister (obj_id chip) (after_close (handle chip) s)).

(** The block, the handle and the object id that the next allocation,
    open and registration hand out in state [s]. *)
Definition new_block (s : State) : ptr := fresh (dom (heap s)).
Definition new_handle (s : State) : gpiod_chip := fresh (dom (open_chips s)).
Definition new_obj_id (s : State) : guint := fresh ({[0%N]} ∪ dom (bus_objects s)).

Definition obj_path (dev : GUdevDevice) : string :=
  "/org/gpiod/" +:+ g_udev_device_get_name dev.
Definition creating_msg (dev : GUdevDevice) : Event :=
  EvLog LevelDebug "creating a dbus object for %s" [g_udev_device_get_name dev].
Definition open_failed_msg (dev : GUdevDevice) : Event :=
  EvLog LevelWarning "error opening GPIO device %s: %s" [g_udev_device_get_name dev].
Definition register_failed_msg (err : GError) : Event :=
  EvLog LevelWarning "error registering a dbus object: %s" [message err].

(** The states in which [register_chip_object] asks the kernel for the
    chip, asks the bus for the object, and reaches the insertion. *)
Definition at_open (dev : GUdevDevice) (s : State) : State :=
  set_heap <[new_block s := mkChipCtx None 0%N (bus (ctx s))]>
    (log_event (creating_msg dev) s).

Definition at_register (dev : GUdevDevice) (info : ChipInfo) (s : State) : State :=
  set_heap <[new_block s := mkChipCtx (Some (new_handle s)) 0%N (bus (ctx s))]>
    (log_event (EvChipOpen (g_udev_device_get_name dev) (Some (new_handle s)))
       (set_open_chips <[new_handle s := info]> (log_event (creating_msg dev) s))).

Definition at_insert (dev : GUdevDevice) (info : ChipInfo) (s : State) : State :=
  set_heap <[new_block s := mkChipCtx (Some (new_handle s)) (new_obj_id s) (bus (ctx s))]>
    (log_event (EvRegisterObject (obj_path dev) (new_block s) (new_obj_id s))
       (set_bus_objects <[new_obj_id s := (obj_path dev, new_block s)]>
          (log_event (EvChipOpen (g_udev_device_get_name dev) (Some (new_handle s)))
             (set_open_chips <[new_handle s := info]> (log_event (creating_msg dev) s))))).

Definition removing_msg (dev : GUdevDevice) : Event :=
  EvLog LevelDebug "removing a dbus object for %s" [g_udev_device_get_name dev].

(** An entry is whole when its block is allocated, its handle is open
    and its object id is non-zero and registered with the block as
    [user_data]. *)
Definition entry_whole (s : State) (p : ptr) : Prop :=
  ∃ c h path,
    heap s !! p = Some c ∧ handle c = Some h ∧ is_Some (open_chips s !! h) ∧
    obj_id c ≠ 0%N ∧ bus_objects s !! obj_id c = Some (path, p).

Record registry_inv (s : State) : Prop := mkInv {
  inv_entries : ∀ name p, chips (ctx s) !! name = Some p → entry_whole s p;
  inv_names : ∀ n1 n2 p,
    chips (ctx s) !! n1 = Some p → chips (ctx s) !! n2 = Some p → n1 = n2;
  inv_handles : ∀ p1 p2 c1 c2 h,
    heap s !! p1 = Some c1 → heap s !! p2 = Some c2 →
    handle c1 = Some h → handle c2 = Some h → p1 = p2;
  inv_heap : ∀ p c, heap s !! p = Some c → ∃ name, chips (ctx s) !! name = Some p;
  inv_open : ∀ h info, open_chips s !! h = Some info →
    ∃ p c, heap s !! p = Some c ∧ handle c = Some h;
  inv_objects : ∀ i path p, bus_objects s !! i = Some (path, p) →
    ∃ c, heap s !! p = Some c ∧ obj_id c = i;
}.

(** The blocks listed in [l] are exactly the allocated ones, and every
    open handle and every registered object belongs to one of them. *)
Record covers (l : list ptr) (s : State) : Prop := mkCovers {
  cov_nodup : NoDup l;
  cov_heap : ∀ p, is_Some (heap s !! p) ↔ p ∈ l;
  cov_open : ∀ h, is_Some (open_chips s !! h) →
    ∃ p c, heap s !! p = Some c ∧ handle c = Some h;
  cov_objects : ∀ i, is_Some (bus_objects s !! i) →
    ∃ p c, heap s !! p = Some c ∧ obj_id c = i ∧ i ≠ 0%N;
}.

(** The state in which a refused registration has been undone: the new
    block is freed and the new handle is closed. *)
Definition after_refusal (dev : GUdevDevice) (s : State) : State :=
  log_event (EvChipClose (new_handle s))
    (log_event (EvRegisterObject (obj_path dev) (new_block s) 0%N)
       (log_event (EvChipOpen (g_udev_device_get_name dev) (Some (new_handle s)))
          (log_event (creating_msg dev) s))).

Definition insertion_reached (P : Platform) (dev : GUdevDevice) (s : State) : Prop :=
  ∃ info, chip_probe P (g_udev_device_get_name dev) (at_open dev s) = Some info ∧
          bus_accepts P (obj_path dev) (at_register dev info s) = true.

(** The chip opens and the bus refuses its object without setting the
    error. *)
Definition refused_without_error (P : Platform) (dev : GUdevDevice) (s : State) : Prop :=
  ∃ info, chip_probe P (g_udev_device_get_name dev) (at_open dev s) = Some info ∧
          bus_accepts P (obj_path dev) (at_register dev info s) = false ∧
          bus_error P (obj_path dev) (at_register dev info s) = None.

(** An object is exported at [path]. *)
Definition exported (path : string) (s : State) : Prop :=
  ∃ i q, bus_objects s !! i = Some (path, q).

(** A bus on which a path holds one object at most. *)
Definition refuses_exported (P : Platform) : Prop :=
  ∀ path st, exported path st → bus_accepts P path st = false.

Definition property_get_msg (sender object interface property : string) : Event :=
  EvLog LevelDebug
        "property get - sender: %s, object: %s, interface: %s, property: %s"
        [sender; object; interface; property].

(** What a read of [property] answers for a chip that reports [info]. *)
Definition property_value (property : string) (info : ChipInfo) : option GVariant :=
  if decide (property = "Name") then Some (VString (info_name info))
  else if decide (property = "Label") then Some (VString (info_label info))
  else if decide (property = "NumLines")
       then Some (VUint32 (info_num_lines info mod 2 ^ 32)%N)
  else None.

(** Whether [a] occurs in [l] with [b] somewhere after its first
    occurrence. *)
Fixpoint precedes (a b : Event) (l : list Event) : bool :=
  match l with
  | [] => false
  | x :: rest => if decide (x = a) then bool_decide (b ∈ rest) else precedes a b rest
  end.

(** The events a run added to the trace of the state it started from. *)
Definition new_events {A} (s : State) (o : Outcome A) : list Event :=
  drop (length (trace s)) (trace (final_state o)).

(** The remove order as the specification words it: the bus object is
    unregistered before the chip handle is closed. *)
Definition unregisters_before_closing (dev : GUdevDevice) (s : State) : Prop :=
  ∀ p c h,
    chips (ctx s) !! g_udev_device_get_name dev = Some p →
    heap s !! p = Some c → handle c = Some h →
    precedes (EvUnregisterObject (obj_id c)) (EvChipClose h)
             (new_events s (destroy_chip_dev dev s)) = true.

(** No bus object is registered whose chip handle is not open. *)
Definition no_stale_object (s : State) : Prop :=
  ∀ i path q, bus_objects s !! i = Some (path, q) →
    ∃ c h, heap s !! q = Some c ∧ handle c = Some h ∧ is_Some (open_chips s !! h).

(** A block as [g_malloc0] leaves it: no handle, no object id. *)
Definition half_built : State :=
  set_heap <[1%positive := mkChipCtx None 0%N None]> initial_state.

(** A command line that parses, one with a help option, and a run in
    which the bus and the name are acquired and a terminate signal
    arrives. *)
Definition plain_cmd : CmdLine := mkCmdLine "gpio-dbus" false true false.
Definition help_cmd : CmdLine := mkCmdLine "gpio-dbus" true true false.
Definition until_sigterm : list (list LoopEvent) :=
  [[BusAcquired 1%positive "org.gpiod"]; [NameAcquired 1%positive "org.gpiod"]; [SIGTERM]].
(** The bus and the name are acquired; the loop then waits. *)
Definition until_active : list (list LoopEvent) :=
  [[BusAcquired 1%positive "org.gpiod"]; [NameAcquired 1%positive "org.gpiod"]].

(** The registry after gpiochip0 was added on the friendly machine. *)
Definition one_chip : State :=
  final_state (register_chip_object friendly gpiochip0 initial_state).

Definition has_device_file (dev : GUdevDevice) : Prop :=
  is_Some (g_udev_device_get_device_file dev).

Global Instance has_device_file_dec dev : Decision (has_device_file dev).
Proof. unfold has_device_file. apply _. Defined.

Definition name_acquired_msg (name : string) : Event :=
  EvLog LevelDebug "DBus name acquired: '%s'" [name].
Definition uevent_msg (action : string) (dev : GUdevDevice) : Event :=
  EvLog LevelDebug "uevent: %s action on %s device" [action; g_udev_device_get_name dev].

(** The state in which [on_name_acquired] walks the device list: the
    handler is connected and udev has been queried. *)
Definition at_enumeration (name : string) (s : State) : State :=
  log_event (EvQueryBySubsystem "gpio")
    (log_event (EvSignalConnect "uevent")
       (set_uevent_handlers S (log_event (name_acquired_msg name) s))).

(** The events of opening, exposing and tearing down chips, and log
    records. *)
Definition chip_event (e : Event) : Prop :=
  match e with
  | EvLog _ _ _ | EvChipOpen _ _ | EvChipClose _
  | EvRegisterObject _ _ _ | EvUnregisterObject _ => True
  | _ => False
  end.

(** A relation between the state before and after a run that holds
    across everything the chip operations do: changes of the context,
    of the heap, of the open chips and of the bus objects, and the
    logging of chip events. *)
Class Tolerates (R : State → State → Prop) : Prop := {
  tol_preorder :: PreOrder R;
  tol_ctx g s : R s (set_ctx g s);
  tol_heap g s : R s (set_heap g s);
  tol_open g s : R s (set_open_chips g s);
  tol_bus g s : R s (set_bus_objects g s);
  tol_log e s : chip_event e → R s (log_event e s);
}.

Definition respects (R : State → State → Prop) {A} (m : M A) : Prop :=
  ∀ s, R s (final_state (m s)).

(** The trace only grows, and only by chip events. *)
Definition grown (s s' : State) : Prop :=
  ∃ new, trace s' = (trace s ++ new)%list ∧ Forall chip_event new.

(** An observation of the state is the same before and after. *)
Definition kept {X} (f : State → X) (s s' : State) : Prop := f s' = f s.

(** The order at name acquisition as the specification words it: the
    device list is queried before the uevent handler is connected. *)
Definition enumerates_before_subscribing (P : Platform) (conn : GDBusConnection)
    (name : string) (s : State) : Prop :=
  precedes (EvQueryBySubsystem "gpio") (EvSignalConnect "uevent")
           (new_events s (on_name_acquired P conn name s)) = true.

Global Instance Stop_eq_dec : EqDecision Stop.
Proof. solve_decision. Defined.

(** A run is sound when it keeps the invariant if it returns, and when
    every exit it makes has the status [EXIT_FAILURE]. *)
Definition sound {A} (o : Outcome A) : Prop :=
  match o with
  | Ret _ s' => registry_inv s'
  | Halt (Exited status) _ => status = EXIT_FAILURE
  | Halt _ _ => True
  end.

Definition is_quit_signal (e : LoopEvent) : bool :=
  match e with SIGTERM | SIGINT => true | _ => false end.

Definition is_name_lost (e : LoopEvent) : bool :=
  match e with NameLost _ _ => true | _ => false end.

(** The exit status as the specification words it: it is 0 only when a
    terminate or interrupt signal stopped the main loop. *)
Definition exits_zero_only_on_quit_signal (P : Platform) (cmd : CmdLine)
    (xml_ok : bool) (iterations : list (list LoopEvent)) : Prop :=
  exit_status (main P cmd xml_ok iterations initial_state) = Some 0%Z →
  Exists (λ ready, existsb is_quit_signal ready = true) iterations.

(** The state in which the loop waits for its next iteration once the
    iterations of [pre], started in [s], have all run to completion
    without stopping it; none if one of them ended the run or stopped
    the loop. *)
Fixpoint after_iterations (P : Platform) (pre : list (list LoopEvent)) (s : State)
    : option State :=
  match pre with
  | [] => Some s
  | ready :: later =>
      match g_list_foreach ready (dispatch P) s with
      | Ret _ s1 => if loop_running s1 then after_iterations P later s1 else None
      | Halt _ _ => None
      end
  end.

(** The state in which [main] enters [g_main_loop_run]. *)
Definition started (cmd : CmdLine) : State :=
  mkState (mkMainLoopCtx None 1%N ∅ true) ∅ ∅ ∅ 0 false
          [EvLog LevelMessage "initiating %s" [prgname cmd];
           EvOwnName "org.gpiod";
           EvLog LevelMessage "%s started" [prgname cmd]].

(** What [main] does once the loop has returned. *)
Definition shutdown (cmd : CmdLine) : M Z :=
  g_hash_table_destroy ;;
  s ← get_state;
  g_bus_unown_name (bus_id (ctx s)) ;;
  g_message "%s exiting cleanly" [prgname cmd] ;;
  mret EXIT_SUCCESS.

(** [s] with [new] appended to its trace. *)
Definition with_new_events (new : list Event) (s : State) : State :=
  mkState (ctx s) (heap s) (open_chips s) (bus_objects s)
          (uevent_handlers s) (loop_running s) (trace s ++ new).

Definition sighup_msg : Event := EvLog LevelDebug "SIGHUB received" [].

Definition unknown_action_msg (action : string) : Event :=
  EvLog LevelWarning "unknown action for uevent: %s" [action].

(** The part of the state that holds the registry and its resources. *)
Definition same_resources (s s' : State) : Prop :=
  ctx s' = ctx s ∧ heap s' = heap s ∧ open_chips s' = open_chips s ∧
  bus_objects s' = bus_objects s.

Definition device_names (devs : list GUdevDevice) : list string :=
  g_udev_device_get_name <$> devs.

(** The kernel lets each of the devices be opened, the bus accepts the
    object of each of them whenever none is exported at its path, and
    the bus sets the error whenever it refuses the object of one of
    them. *)
Definition chips_open (P : Platform) (devs : list GUdevDevice) : Prop :=
  ∀ dev st, dev ∈ devs → is_Some (chip_probe P (g_udev_device_get_name dev) st).

Definition accepts_unexported (P : Platform) (devs : list GUdevDevice) : Prop :=
  ∀ dev st, dev ∈ devs → ¬ exported (obj_path dev) st →
    bus_accepts P (obj_path dev) st = true.

Definition refusals_have_errors (P : Platform) (devs : list GUdevDevice) : Prop :=
  ∀ dev st, dev ∈ devs → bus_accepts P (obj_path dev) st = false →
    is_Some (bus_error P (obj_path dev) st).

(** The devices [on_name_acquired] registers in state [s]. *)
Definition enumerated (P : Platform) (name : string) (s : State) : list GUdevDevice :=
  filter has_device_file (udev_gpio_devices P (at_enumeration name s)).

(** Every entry keeps the connection of the context as its back
    reference, and its object id is registered at the path derived from
    its name, with the entry's block as [user_data]. *)
Definition entries_bound (s : State) : Prop :=
  ∀ name p c, chips (ctx s) !! name = Some p → heap s !! p = Some c →
    dbus_conn c = bus (ctx s) ∧
    bus_objects s !! obj_id c = Some ("/org/gpiod/" +:+ name, p).

Definition is_name_acquired (e : LoopEvent) : bool :=
  match e with NameAcquired _ _ => true | _ => false end.

(** Nothing is exposed and no uevent handler is connected. *)
Definition unexposed (s : State) : Prop :=
  uevent_handlers s = 0 ∧ chips (ctx s) = ∅ ∧ heap s = ∅ ∧ open_chips s = ∅ ∧
  bus_objects s = ∅.

Definition is_bus_acquired (e : LoopEvent) : bool :=
  match e with BusAcquired _ _ => true | _ => false end.

(** The daemon on the friendly machine once the name is acquired: the
    uevent handler is connected and two chips are exposed. *)
Definition active : State :=
  final_state (on_name_acquired friendly 1%positive "org.gpiod" initial_state).

(** A log record as the writer receives it. *)
Definition sample_fields : list GLogField :=
  [mkField "PRIORITY" (Some "4"); mkField "MESSAGE" (Some "gpio-dbus started");
   mkField "MESSAGE" (Some "ignored")].

(** ** Running the monad *)

Lemma run_bind {A B} (m : M A) (f : A → M B) (s : State) :
  (m ≫= f) s =
  match m s with Ret a s' => f a s' | Halt why s' => Halt why s' end.
Proof. reflexivity. Qed.

Lemma run_ret {A} (a : A) (s : State) : (mret a : M A) s = Ret a s.
Proof. reflexivity. Qed.

Lemma run_read {A} p (field : ChipCtx → A) c s :
  heap s !! p = Some c → read p field s = Ret (field c) s.
Proof. intros H. unfold read. by rewrite H. Qed.

Lemma g_strcmp0_eq a b : (g_strcmp0 a b =? 0)%Z = true ↔ a = b.
Proof.
  unfold g_strcmp0. destruct (String.compare a b) eqn:E.
  - apply String.compare_eq_iff in E. by split.
  - split; [done | intros ->].
    pose proof (String.compare_antisym b b) as Hs. rewrite E in Hs. done.
  - split; [done | intros ->].
    pose proof (String.compare_antisym b b) as Hs. rewrite E in Hs. done.
Qed.

Lemma g_strcmp0_ne a b : a ≠ b → (g_strcmp0 a b =? 0)%Z = false.
Proof.
  intros H. destruct (g_strcmp0 a b =? 0)%Z eqn:E; [|done].
  apply g_strcmp0_eq in E. congruence.
Qed.

Lemma is_gpiochip_device_false dev :
  g_udev_device_get_device_file dev = None → is_gpiochip_device dev = false.
Proof.
  intros H. unfold is_gpiochip_device. rewrite H.
  apply bool_decide_eq_false. intros Hn. by apply Hn.
Qed.

Lemma is_gpiochip_device_true dev :
  is_Some (g_udev_device_get_device_file dev) → is_gpiochip_device dev = true.
Proof.
  intros [f H]. unfold is_gpiochip_device. rewrite H. by apply bool_decide_eq_true.
Qed.

Lemma foreach_noop {A} (l : list A) (f : A → M unit) s :
  (∀ x, x ∈ l → f x s = Ret () s) → g_list_foreach l f s = Ret () s.
Proof.
  induction l as [|x l IH]; intros H; [done|].
  simpl. rewrite run_bind, H by left. apply IH. intros y Hy. apply H. by right.
Qed.

Lemma on_uevent_skips P action dev s :
  g_udev_device_get_device_file dev = None → on_uevent P action dev s = Ret () s.
Proof. intros H. unfold on_uevent. by rewrite is_gpiochip_device_false. Qed.

(** ** Tearing an entry down *)

Lemma heap_after_close h s : heap (after_close h s) = heap s.
Proof. by destruct h. Qed.

Lemma heap_after_unregister i s : heap (after_unregister i s) = heap s.
Proof. unfold after_unregister. by destruct (i =? 0)%N. Qed.

Lemma destroy_chip_object_run p chip s :
  heap s !! p = Some chip →
  destroy_chip_object p s = Ret () (destroyed p chip s).
Proof.
  intros Hp. unfold destroy_chip_object, destroyed.
  rewrite run_bind, (run_read _ _ chip) by done.
  rewrite run_bind.
  assert (Hclose : (match handle chip with
                    | Some h' => gpiod_chip_close h'
                    | None => mret ()
                    end) s = Ret () (after_close (handle chip) s)).
  { by destruct (handle chip). }
  rewrite Hclose.
  rewrite run_bind, (run_read _ _ chip) by (by rewrite heap_after_close).
  rewrite run_bind.
  set (s1 := after_close (handle chip) s).
  assert (Hunreg : (if (obj_id chip =? 0)%N then mret ()
                    else conn ← read p dbus_conn;
                         g_dbus_connection_unregister_object conn (obj_id chip) ;; mret ())
                     s1 = Ret () (after_unregister (obj_id chip) s1)).
  { unfold after_unregister. destruct (obj_id chip =? 0)%N; [done|].
    rewrite run_bind, (run_read _ _ chip) by (subst s1; by rewrite heap_after_close).
    done. }
  rewrite Hunreg. unfold g_free.
  rewrite run_bind, (run_read _ _ chip); [done|].
  subst s1. by rewrite heap_after_unregister, heap_after_close.
Qed.

Lemma destroy_chip_object_dangling p s :
  heap s !! p = None → destroy_chip_object p s = Halt InvalidAccess s.
Proof. intros Hp. unfold destroy_chip_object. rewrite run_bind. unfold read. by rewrite Hp. Qed.

(** ** Adding an entry *)

Lemma state_eq s1 s2 :
  ctx s1 = ctx s2 → heap s1 = heap s2 → open_chips s1 = open_chips s2 →
  bus_objects s1 = bus_objects s2 → uevent_handlers s1 = uevent_handlers s2 →
  loop_running s1 = loop_running s2 → trace s1 = trace s2 → s1 = s2.
Proof. destruct s1, s2; simpl; intros; by subst. Qed.

Lemma new_block_fresh s : heap s !! new_block s = None.
Proof. unfold new_block. apply not_elem_of_dom, is_fresh. Qed.

Lemma new_handle_fresh s : open_chips s !! new_handle s = None.
Proof. unfold new_handle. apply not_elem_of_dom, is_fresh. Qed.

Lemma new_obj_id_fresh s : bus_objects s !! new_obj_id s = None ∧ new_obj_id s ≠ 0%N.
Proof.
  pose proof (is_fresh ({[0%N]} ∪ dom (bus_objects s))) as H.
  fold (new_obj_id s) in H. split.
  - apply not_elem_of_dom. set_solver.
  - set_solver.
Qed.

Ltac mrun := repeat (rewrite run_bind; simpl).

Ltac run_write :=
  rewrite run_bind; unfold write at 1; rewrite run_bind; unfold read at 1; simpl;
  rewrite lookup_insert_eq; simpl.

Ltac name_state st' :=
  match goal with |- _ ?st = _ => replace st with st' end;
  [| apply state_eq; simpl; try done; by rewrite ?insert_insert_eq].

Ltac register_prelude dev s :=
  unfold register_chip_object;
  rewrite run_bind; simpl; rewrite run_bind; simpl; rewrite run_bind; simpl;
  run_write; name_state (at_open dev s);
  rewrite run_bind; unfold gpiod_chip_open_by_name at 1.

Lemma register_open_fails P dev s :
  chip_probe P (g_udev_device_get_name dev) (at_open dev s) = None →
  register_chip_object P dev s
  = Ret () (log_event (open_failed_msg dev)
             (log_event (EvChipOpen (g_udev_device_get_name dev) None)
                (log_event (creating_msg dev) s))).
Proof.
  intros Hprobe. register_prelude dev s. rewrite Hprobe.
  run_write. rewrite run_bind.
  erewrite destroy_chip_object_run; [|simpl; by rewrite lookup_insert_eq].
  simpl. unfold g_warning, g_log, emit, modify. f_equal.
  apply state_eq; simpl; try done.
  rewrite !delete_insert_eq. apply delete_id, new_block_fresh.
Qed.

(** A refused registration: the handle is closed and the block freed,
    then the warning reads the error's message. *)
Lemma register_bus_refuses P dev s info :
  chip_probe P (g_udev_device_get_name dev) (at_open dev s) = Some info →
  bus_accepts P (obj_path dev) (at_register dev info s) = false →
  register_chip_object P dev s
  = match bus_error P (obj_path dev) (at_register dev info s) with
    | Some err => Ret () (log_event (register_failed_msg err) (after_refusal dev s))
    | None => Halt InvalidAccess (after_refusal dev s)
    end.
Proof.
  intros Hprobe Hbus. register_prelude dev s. rewrite Hprobe.
  run_write. name_state (at_register dev info s).
  rewrite run_bind. unfold g_dbus_connection_register_object at 1.
  fold (obj_path dev). rewrite Hbus.
  run_write. rewrite run_bind.
  erewrite destroy_chip_object_run; [|simpl; by rewrite lookup_insert_eq].
  assert (Hs : destroyed (new_block s)
                 (mkChipCtx (Some (new_handle s)) 0%N (bus (ctx s)))
                 (set_heap <[new_block s
                             := mkChipCtx (Some (new_handle s)) 0%N (bus (ctx s))]>
                    (log_event (EvRegisterObject (obj_path dev) (new_block s) 0%N)
                       (at_register dev info s)))
               = after_refusal dev s).
  { apply state_eq; simpl; try done.
    - rewrite !delete_insert_eq. apply delete_id, new_block_fresh.
    - apply delete_insert_id, new_handle_fresh. }
  rewrite <- Hs. rewrite run_bind.
  by destruct (bus_error P (obj_path dev) (at_register dev info s)).
Qed.

Lemma register_reaches_insert P dev s info :
  chip_probe P (g_udev_device_get_name dev) (at_open dev s) = Some info →
  bus_accepts P (obj_path dev) (at_register dev info s) = true →
  register_chip_object P dev s
  = (ret ← g_hash_table_insert (g_udev_device_get_name dev) (new_block s);
     g_assert_true ret) (at_insert dev info s).
Proof.
  intros Hprobe Hbus. register_prelude dev s. rewrite Hprobe.
  run_write. name_state (at_register dev info s).
  rewrite run_bind. unfold g_dbus_connection_register_object at 1.
  fold (obj_path dev). rewrite Hbus.
  run_write. name_state (at_insert dev info s).
  destruct (new_obj_id_fresh s) as [_ Hnz].
  fold (new_obj_id s). apply N.eqb_neq in Hnz. by rewrite Hnz.
Qed.

(** The insertion and its assertion, lines 233-238. *)
Lemma insert_step_new key value s :
  chips (ctx s) !! key = None →
  (ret ← g_hash_table_insert key value; g_assert_true ret) s
  = Ret () (set_ctx (set_chips <[key := value]>) s).
Proof.
  intros Hk. unfold g_hash_table_insert, get_state.
  rewrite !run_bind. simpl. by rewrite Hk.
Qed.

Lemma insert_step_duplicate key value old c s :
  chips (ctx s) !! key = Some old → heap s !! old = Some c →
  (ret ← g_hash_table_insert key value; g_assert_true ret) s
  = Halt AssertionFailed (destroyed old c (set_ctx (set_chips <[key := value]>) s)).
Proof.
  intros Hk Hc. unfold g_hash_table_insert, get_state.
  rewrite !run_bind. simpl. rewrite Hk. rewrite run_bind.
  by rewrite (destroy_chip_object_run old c).
Qed.

(** ** Removing an entry *)

Lemma destroy_chip_dev_present dev p c s :
  chips (ctx s) !! g_udev_device_get_name dev = Some p → heap s !! p = Some c →
  destroy_chip_dev dev s
  = Ret () (destroyed p c
              (set_ctx (set_chips (delete (g_udev_device_get_name dev)))
                 (log_event (removing_msg dev) s))).
Proof.
  intros Hk Hc. unfold destroy_chip_dev, g_hash_table_remove, get_state.
  mrun. rewrite Hk. mrun.
  by rewrite (destroy_chip_object_run p c).
Qed.

Lemma destroy_chip_dev_absent dev s :
  chips (ctx s) !! g_udev_device_get_name dev = None →
  destroy_chip_dev dev s = Halt AssertionFailed (log_event (removing_msg dev) s).
Proof.
  intros Hk. unfold destroy_chip_dev, g_hash_table_remove, get_state.
  mrun. by rewrite Hk.
Qed.

(** ** The registry invariant *)

Lemma registry_inv_initial : registry_inv initial_state.
Proof. split; simpl; intros *; by rewrite ?lookup_empty. Qed.

Lemma registry_inv_frame s s' :
  chips (ctx s') = chips (ctx s) → heap s' = heap s →
  open_chips s' = open_chips s → bus_objects s' = bus_objects s →
  registry_inv s → registry_inv s'.
Proof.
  intros Hc Hh Ho Hb [E N H Hp O B].
  split; unfold entry_whole; rewrite ?Hc, ?Hh, ?Ho, ?Hb; eauto.
Qed.

Lemma block_of_entry s name p :
  registry_inv s → chips (ctx s) !! name = Some p → is_Some (heap s !! p).
Proof. intros I Hn. destruct (inv_entries s I name p Hn) as (c & ? & ? & -> & ?). eauto. Qed.

Lemma registry_inv_add s s' name p h i info path b :
  registry_inv s →
  chips (ctx s) !! name = None → heap s !! p = None →
  open_chips s !! h = None → bus_objects s !! i = None → i ≠ 0%N →
  chips (ctx s') = <[name := p]> (chips (ctx s)) →
  heap s' = <[p := mkChipCtx (Some h) i b]> (heap s) →
  open_chips s' = <[h := info]> (open_chips s) →
  bus_objects s' = <[i := (path, p)]> (bus_objects s) →
  registry_inv s'.
Proof.
  intros I Hname Hp Hh Hi Hnz Ec Eh Eo Eb.
  assert (Hlive : ∀ q c, heap s !! q = Some c → entry_whole s q).
  { intros q c Hq. destruct (inv_heap s I q c Hq) as [n Hn]. eauto using inv_entries. }
  split; unfold entry_whole; rewrite ?Ec, ?Eh, ?Eo, ?Eb.
  - intros n q Hn. destruct (decide (name = n)) as [->|Hne].
    + rewrite lookup_insert_eq in Hn. simplify_eq.
      exists (mkChipCtx (Some h) i b), h, path. simpl.
      rewrite !lookup_insert_eq. eauto.
    + rewrite lookup_insert_ne in Hn by done.
      destruct (inv_entries s I n q Hn) as (c & h' & path' & Hq & Hh' & Ho & Hz & Hb).
      exists c, h', path'.
      repeat split; try done.
      * rewrite lookup_insert_ne; [done|congruence].
      * rewrite lookup_insert_is_Some. destruct (decide (h = h')); eauto.
      * rewrite lookup_insert_ne; [done|congruence].
  - intros n1 n2 q H1 H2. rewrite lookup_insert_Some in H1, H2.
    destruct H1 as [[E1 E1']|[N1 H1]], H2 as [[E2 E2']|[N2 H2]].
    + congruence.
    + rewrite <- E1' in H2. destruct (block_of_entry s n2 p I H2); congruence.
    + rewrite <- E2' in H1. destruct (block_of_entry s n1 p I H1); congruence.
    + eauto using inv_names.
  - intros p1 p2 c1 c2 h0 H1 H2 Hh1 Hh2. rewrite lookup_insert_Some in H1, H2.
    destruct H1 as [[E1 E1']|[N1 H1]], H2 as [[E2 E2']|[N2 H2]].
    + congruence.
    + rewrite <- E1' in Hh1. simpl in Hh1.
      destruct (Hlive _ _ H2) as (c & h' & ? & ? & ? & [? ?] & ?). congruence.
    + rewrite <- E2' in Hh2. simpl in Hh2.
      destruct (Hlive _ _ H1) as (c & h' & ? & ? & ? & [? ?] & ?). congruence.
    + eauto using inv_handles.
  - intros q c. rewrite lookup_insert_Some. intros [[<- <-]|[? Hq]].
    + exists name. by rewrite lookup_insert_eq.
    + destruct (inv_heap s I q c Hq) as [n Hn]. exists n.
      rewrite lookup_insert_ne; [done|congruence].
  - intros h0 info0. rewrite lookup_insert_Some. intros [[<- <-]|[? Hq]].
    + exists p, (mkChipCtx (Some h) i b). by rewrite lookup_insert_eq.
    + destruct (inv_open s I h0 info0 Hq) as (q & c & Hc & ?). exists q, c.
      rewrite lookup_insert_ne; [done|congruence].
  - intros i0 path0 q. rewrite lookup_insert_Some. intros [[<- [= <- <-]]|[? Hq]].
    + exists (mkChipCtx (Some h) i b). by rewrite lookup_insert_eq.
    + destruct (inv_objects s I i0 path0 q Hq) as (c & Hc & ?). exists c.
      rewrite lookup_insert_ne; [done|congruence].
Qed.

Lemma registry_inv_remove s s' name p c h :
  registry_inv s →
  chips (ctx s) !! name = Some p → heap s !! p = Some c → handle c = Some h →
  chips (ctx s') = delete name (chips (ctx s)) →
  heap s' = delete p (heap s) →
  open_chips s' = delete h (open_chips s) →
  bus_objects s' = delete (obj_id c) (bus_objects s) →
  registry_inv s'.
Proof.
  intros I Hname Hp Hh Ec Eh Eo Eb.
  destruct (inv_entries s I name p Hname) as (c0 & h0 & path & Hp0 & Hh0 & _ & _ & Hobj).
  assert (c0 = c) as -> by congruence. assert (h0 = h) as -> by congruence.
  split; unfold entry_whole; rewrite ?Ec, ?Eh, ?Eo, ?Eb.
  - intros n q Hn. apply lookup_delete_Some in Hn as [Hne Hn].
    assert (q ≠ p) as Hqp.
    { intros ->. apply Hne. eauto using inv_names. }
    destruct (inv_entries s I n q Hn) as (c' & h' & path' & Hq & Hh' & Ho & Hz & Hb).
    exists c', h', path'. repeat split; try done.
    + by rewrite lookup_delete_ne.
    + rewrite lookup_delete_ne; [done|]. intros <-.
      apply Hqp. eauto using inv_handles.
    + rewrite lookup_delete_ne; [done|]. intros E. rewrite E in Hobj. congruence.
  - intros n1 n2 q H1 H2.
    apply lookup_delete_Some in H1 as [_ H1]. apply lookup_delete_Some in H2 as [_ H2].
    eauto using inv_names.
  - intros p1 p2 c1 c2 h1 H1 H2.
    apply lookup_delete_Some in H1 as [_ H1]. apply lookup_delete_Some in H2 as [_ H2].
    eauto using inv_handles.
  - intros q c' Hq. apply lookup_delete_Some in Hq as [Hne Hq].
    destruct (inv_heap s I q c' Hq) as [n Hn]. exists n.
    rewrite lookup_delete_ne; [done|]. intros <-. congruence.
  - intros h' info Hq. apply lookup_delete_Some in Hq as [Hne Hq].
    destruct (inv_open s I h' info Hq) as (q & c' & Hc' & Hh'). exists q, c'.
    split; [|done]. rewrite lookup_delete_ne; [done|]. intros <-. congruence.
  - intros i path' q Hq. apply lookup_delete_Some in Hq as [Hne Hq].
    destruct (inv_objects s I i path' q Hq) as (c' & Hc' & Hi). exists c'.
    split; [|done]. rewrite lookup_delete_ne; [done|]. intros <-. congruence.
Qed.

Lemma destroyed_whole p c h s :
  handle c = Some h → obj_id c ≠ 0%N →
  destroyed p c s
  = set_heap (delete p)
      (log_event (EvUnregisterObject (obj_id c))
         (set_bus_objects (delete (obj_id c))
            (log_event (EvChipClose h) (set_open_chips (delete h) s)))).
Proof.
  intros Hh Hz. unfold destroyed, after_unregister, after_close.
  rewrite Hh. apply N.eqb_neq in Hz. by rewrite Hz.
Qed.

Lemma destroy_chip_dev_preserves_inv dev s :
  registry_inv s → registry_inv (final_state (destroy_chip_dev dev s)).
Proof.
  intros I. destruct (chips (ctx s) !! g_udev_device_get_name dev) as [p|] eqn:Hk.
  - destruct (inv_entries s I _ p Hk) as (c & h & path & Hp & Hh & _ & Hz & _).
    rewrite (destroy_chip_dev_present dev p c s Hk Hp). simpl.
    rewrite (destroyed_whole p c h) by done.
    eapply (registry_inv_remove s _ _ p c h); eauto.
  - rewrite (destroy_chip_dev_absent dev s Hk). simpl.
    by apply (registry_inv_frame s).
Qed.

Lemma register_preserves_inv P dev s :
  registry_inv s → registry_inv (final_state (register_chip_object P dev s)).
Proof.
  intros I.
  destruct (chip_probe P (g_udev_device_get_name dev) (at_open dev s)) as [info|] eqn:Hprobe.
  2:{ rewrite (register_open_fails P dev s Hprobe). simpl. by apply (registry_inv_frame s). }
  destruct (bus_accepts P (obj_path dev) (at_register dev info s)) eqn:Hbus.
  2:{ rewrite (register_bus_refuses P dev s info Hprobe Hbus).
      destruct (bus_error P (obj_path dev) (at_register dev info s)); simpl;
        by apply (registry_inv_frame s). }
  rewrite (register_reaches_insert P dev s info Hprobe Hbus).
  destruct (new_obj_id_fresh s) as [Hi Hnz].
  destruct (chips (ctx s) !! g_udev_device_get_name dev) as [old|] eqn:Hk.
  - destruct (inv_entries s I _ old Hk) as (c & h & path & Hp & Hh & Ho & Hz & Hb).
    assert (old ≠ new_block s) as Hne.
    { intros ->. by rewrite new_block_fresh in Hp. }
    rewrite (insert_step_duplicate _ _ old c); [|done|simpl; by rewrite lookup_insert_ne].
    simpl. rewrite (destroyed_whole old c h) by done.
    eapply (registry_inv_add
              (destroyed old c (set_ctx (set_chips (delete (g_udev_device_get_name dev))) s))
              _ (g_udev_device_get_name dev) (new_block s) (new_handle s) (new_obj_id s)
              info (obj_path dev) (bus (ctx s))).
    + rewrite (destroyed_whole old c h) by done.
      eapply (registry_inv_remove s _ _ old c h); eauto.
    + rewrite (destroyed_whole old c h) by done. simpl. apply lookup_delete_eq.
    + rewrite (destroyed_whole old c h) by done. simpl.
      rewrite lookup_delete_ne by done. apply new_block_fresh.
    + rewrite (destroyed_whole old c h) by done. simpl.
      apply lookup_delete_None. right. apply new_handle_fresh.
    + rewrite (destroyed_whole old c h) by done. simpl.
      apply lookup_delete_None. right. done.
    + done.
    + rewrite (destroyed_whole old c h) by done. simpl. by rewrite insert_delete_eq.
    + rewrite (destroyed_whole old c h) by done. simpl.
      by rewrite delete_insert_ne.
    + rewrite (destroyed_whole old c h) by done. simpl.
      rewrite delete_insert_ne; [done|]. intros E.
      destruct Ho as [? Ho]. rewrite E, new_handle_fresh in Ho. done.
    + rewrite (destroyed_whole old c h) by done. simpl.
      rewrite delete_insert_ne; [done|]. intros E. rewrite E, Hi in Hb. done.
  - rewrite (insert_step_new _ _ (at_insert dev info s)) by done. simpl.
    eapply (registry_inv_add s _ (g_udev_device_get_name dev) (new_block s)
              (new_handle s) (new_obj_id s) info (obj_path dev) (bus (ctx s)));
      eauto using new_block_fresh, new_handle_fresh.
Qed.

(** ** Destroying every entry *)

Lemma covers_step p l c s :
  covers (p :: l) s → heap s !! p = Some c → covers l (destroyed p c s).
Proof.
  intros [Hnd Hheap Hopen Hobj] Hp. apply NoDup_cons in Hnd as [Hnotin Hnd].
  assert (Hh : heap (destroyed p c s) = delete p (heap s)).
  { unfold destroyed. simpl. by rewrite heap_after_unregister, heap_after_close. }
  split; [done|..]; rewrite ?Hh.
  - intros q. rewrite lookup_delete_is_Some, Hheap, elem_of_cons.
    split; [intros [? [?|?]]; congruence|]. intros Hq. split; [congruence|by right].
  - intros h Hop.
    assert (is_Some (open_chips s !! h) ∧ handle c ≠ Some h) as [Hop' Hne].
    { unfold destroyed, after_unregister, after_close in Hop.
      destruct (obj_id c =? 0)%N, (handle c) as [h'|]; simpl in Hop;
        rewrite ?lookup_delete_is_Some in Hop; intuition congruence. }
    destruct (Hopen h Hop') as (q & c' & Hq & Hc'). exists q, c'. split; [|done].
    rewrite lookup_delete_ne; [done|]. intros <-. congruence.
  - intros i Hob.
    assert (is_Some (bus_objects s !! i) ∧ (i ≠ 0%N → obj_id c ≠ i)) as [Hob' Hne].
    { unfold destroyed, after_unregister, after_close in Hob.
      destruct (N.eqb_spec (obj_id c) 0), (handle c) as [h'|]; simpl in Hob;
        rewrite ?lookup_delete_is_Some in Hob; intuition congruence. }
    destruct (Hobj i Hob') as (q & c' & Hq & Hc' & Hz). exists q, c'.
    split; [|done]. rewrite lookup_delete_ne; [done|]. intros <-.
    apply (Hne Hz). congruence.
Qed.

Lemma destroy_all_run (l : list (string * ptr)) s :
  covers l.*2 s →
  ∃ s', g_list_foreach l (λ kv, destroy_chip_object kv.2) s = Ret () s' ∧
        ctx s' = ctx s ∧ heap s' = ∅ ∧ open_chips s' = ∅ ∧ bus_objects s' = ∅.
Proof.
  revert s. induction l as [|[k p] l IH]; intros s C.
  - exists s. destruct C as [_ Hheap Hopen Hobj]. simpl in *.
    assert (heap s = ∅) as Hempty.
    { apply map_empty. intros p. apply eq_None_not_Some. rewrite Hheap. by apply not_elem_of_nil. }
    repeat split; try done.
    + apply map_empty. intros h. apply eq_None_not_Some. intros Hh.
      destruct (Hopen h Hh) as (p & c & Hp & _). by rewrite Hempty in Hp.
    + apply map_empty. intros i. apply eq_None_not_Some. intros Hi.
      destruct (Hobj i Hi) as (p & c & Hp & _). by rewrite Hempty in Hp.
  - simpl in C. assert (is_Some (heap s !! p)) as [c Hp].
    { apply (cov_heap _ _ C). by left. }
    destruct (IH (destroyed p c s) (covers_step p _ c s C Hp)) as (s' & Hrun & Hctx & ?).
    exists s'. simpl. rewrite run_bind, (destroy_chip_object_run p c s Hp).
    split; [done|]. split; [|done]. rewrite Hctx. unfold destroyed. simpl.
    unfold after_unregister, after_close.
    by destruct (obj_id c =? 0)%N, (handle c).
Qed.

Lemma registry_covers s :
  registry_inv s → covers (map_to_list (chips (ctx s))).*2 (set_ctx (set_chips (λ _, ∅)) s).
Proof.
  intros I. split; simpl.
  - apply NoDup_fmap_2_strong; [|apply NoDup_map_to_list].
    intros [n1 p1] [n2 p2] H1 H2 E. simpl in E. subst.
    apply elem_of_map_to_list in H1, H2. f_equal. eauto using inv_names.
  - intros p. rewrite list_elem_of_fmap. split.
    + intros [c Hc]. destruct (inv_heap s I p c Hc) as [n Hn].
      exists (n, p). split; [done|]. by apply elem_of_map_to_list.
    + intros ([n q] & -> & Hin). apply elem_of_map_to_list in Hin. simpl.
      by apply (block_of_entry s n).
  - intros h [info Hh]. eauto using inv_open.
  - intros i [[path p] Hi].
    destruct (inv_objects s I i path p Hi) as (c & Hc & Hid).
    exists p, c. repeat split; try done.
    destruct (inv_heap s I p c Hc) as [n Hn].
    destruct (inv_entries s I n p Hn) as (c' & ? & ? & Hc' & _ & _ & Hz & _).
    congruence.
Qed.

Lemma hash_table_destroy_clears s :
  registry_inv s →
  ∃ s', g_hash_table_destroy s = Ret () s' ∧ registry_inv s' ∧
        chips (ctx s') = ∅ ∧ heap s' = ∅ ∧ open_chips s' = ∅ ∧ bus_objects s' = ∅ ∧
        bus_id (ctx s') = bus_id (ctx s).
Proof.
  intros I. destruct (destroy_all_run _ _ (registry_covers s I)) as (s' & Hrun & Hctx & Hh & Ho & Hb).
  exists s'. unfold g_hash_table_destroy, get_state. mrun. rewrite Hrun.
  assert (chips (ctx s') = ∅) as Hc by (by rewrite Hctx).
  split; [done|]. split.
  { apply (registry_inv_frame initial_state); [done..|apply registry_inv_initial]. }
  repeat split; try done. by rewrite Hctx.
Qed.

(** The three ways the add-sequence ends in a consistent registry: by
    the assertion, by the read of the unset error, or by returning. *)
Lemma register_outcome P dev s :
  registry_inv s →
  ((∃ s', register_chip_object P dev s = Halt AssertionFailed s') ↔
   is_Some (chips (ctx s) !! g_udev_device_get_name dev) ∧ insertion_reached P dev s) ∧
  ((∃ s', register_chip_object P dev s = Halt InvalidAccess s') ↔
   refused_without_error P dev s) ∧
  (¬ (is_Some (chips (ctx s) !! g_udev_device_get_name dev) ∧ insertion_reached P dev s) →
   ¬ refused_without_error P dev s →
   ∃ s', register_chip_object P dev s = Ret () s').
Proof.
  intros I. unfold insertion_reached, refused_without_error.
  set (name := g_udev_device_get_name dev).
  destruct (chip_probe P name (at_open dev s)) as [info|] eqn:Hprobe.
  2:{ rewrite (register_open_fails P dev s Hprobe).
      split; [split; [by intros [? ?]|by intros (_ & ? & ? & _)]|].
      split; [split; [by intros [? ?]|by intros (? & ? & _)]|eauto]. }
  destruct (bus_accepts P (obj_path dev) (at_register dev info s)) eqn:Hbus.
  2:{ rewrite (register_bus_refuses P dev s info Hprobe Hbus).
      destruct (bus_error P (obj_path dev) (at_register dev info s)) as [err|] eqn:Herr.
      - split; [split; [by intros [? ?]|intros (_ & ? & [= <-] & ?); congruence]|].
        split; [|eauto]. split; [by intros [? ?]|].
        intros (? & [= <-] & _ & ?). congruence.
      - split; [split; [by intros [? ?]|intros (_ & ? & [= <-] & ?); congruence]|].
        split; [split; eauto|]. intros _ Hn. destruct Hn. eauto. }
  rewrite (register_reaches_insert P dev s info Hprobe Hbus).
  destruct (chips (ctx s) !! name) as [old|] eqn:Hk.
  - destruct (inv_entries s I _ old Hk) as (c & h & path & Hp & _).
    assert (old ≠ new_block s) as Hne.
    { intros ->. by rewrite new_block_fresh in Hp. }
    rewrite (insert_step_duplicate _ _ old c); [|done|simpl; by rewrite lookup_insert_ne].
    split; [split; eauto|].
    split; [|intros []; eauto].
    split; [by intros [? ?]|]. intros (? & [= <-] & ? & _). congruence.
  - rewrite (insert_step_new _ _ (at_insert dev info s)) by done.
    split; [split; [by intros [? ?]|by intros [[? ?] _]]|].
    split; [|eauto]. split; [by intros [? ?]|].
    intros (? & [= <-] & ? & _). congruence.
Qed.

Lemma register_returns_or_faults P dev s :
  registry_inv s →
  ¬ (is_Some (chips (ctx s) !! g_udev_device_get_name dev) ∧ insertion_reached P dev s) →
  (∃ s', register_chip_object P dev s = Ret () s' ∧ ¬ refused_without_error P dev s) ∨
  (∃ s', register_chip_object P dev s = Halt InvalidAccess s' ∧
         refused_without_error P dev s).
Proof.
  intros I Hn. destruct (register_outcome P dev s I) as (_ & Hfault & Hret).
  destruct (register_chip_object P dev s) as [[] s'|why s'] eqn:E.
  - left. exists s'. split; [done|]. intros Hr. apply Hfault in Hr as [? ?]. done.
  - right. exists s'.
    assert (refused_without_error P dev s) as Hr.
    { destruct (chip_probe P (g_udev_device_get_name dev) (at_open dev s))
        as [info|] eqn:Hprobe.
      2:{ by rewrite (register_open_fails P dev s Hprobe) in E. }
      destruct (bus_accepts P (obj_path dev) (at_register dev info s)) eqn:Hbus.
      - exfalso. destruct (chips (ctx s) !! g_udev_device_get_name dev) as [old|] eqn:Hk.
        + apply Hn. split; [eauto|]. exists info. done.
        + rewrite (register_reaches_insert P dev s info Hprobe Hbus) in E.
          by rewrite (insert_step_new _ _ (at_insert dev info s)) in E.
      - rewrite (register_bus_refuses P dev s info Hprobe Hbus) in E.
        destruct (bus_error P (obj_path dev) (at_register dev info s)) eqn:Herr; [done|].
        exists info. done. }
    split; [|done]. apply Hfault in Hr as [s'' Hs'']. congruence.
Qed.

(** In a consistent registry whose entries are bound to their objects,
    a name is registered exactly when an object is exported at the path
    derived from it. *)
Lemma exported_iff_registered s name :
  registry_inv s → entries_bound s →
  (exported ("/org/gpiod/" +:+ name) s ↔ is_Some (chips (ctx s) !! name)).
Proof.
  intros I B. split.
  - intros (i & q & Hi).
    destruct (inv_objects s I i _ q Hi) as (c & Hc & Hid).
    destruct (inv_heap s I q c Hc) as [n Hn].
    destruct (B n q c Hn Hc) as [_ Hobj]. rewrite Hid, Hi in Hobj.
    assert ("/org/gpiod/" +:+ name = "/org/gpiod/" +:+ n) as Hpath by congruence.
    simpl in Hpath. simplify_eq. eauto.
  - intros [p Hn]. destruct (block_of_entry s name p I Hn) as [c Hc].
    destruct (B name p c Hn Hc) as [_ Hobj]. by exists (obj_id c), p.
Qed.

Lemma present_name_is_refused P dev s :
  registry_inv s → entries_bound s → refuses_exported P →
  is_Some (chips (ctx s) !! g_udev_device_get_name dev) → ¬ insertion_reached P dev s.
Proof.
  intros I B HP Hk (info & _ & Hbus).
  rewrite HP in Hbus; [done|].
  apply (exported_iff_registered s _ I B) in Hk. exact Hk.
Qed.

Lemma property_get_run sender object interface property p c h info s :
  heap s !! p = Some c → handle c = Some h → open_chips s !! h = Some info →
  on_chip_property_get sender object interface property p s
  = Ret (property_value property info)
        (log_event (property_get_msg sender object interface property) s).
Proof.
  intros Hp Hh Ho. unfold on_chip_property_get, property_value.
  rewrite run_bind. simpl. fold (property_get_msg sender object interface property).
  set (s1 := log_event _ s).
  assert (Hq : ∀ A (field : ChipInfo → A) (k : A → option GVariant),
             (h' ← read p handle; v ← gpiod_chip_query field h'; mret (k v)) s1
             = Ret (k (field info)) s1).
  { intros A field k. rewrite run_bind, (run_read _ _ c) by done.
    rewrite Hh, run_bind. unfold gpiod_chip_query. simpl. by rewrite Ho. }
  destruct (decide (property = "Name")) as [->|H1].
  { rewrite (proj2 (g_strcmp0_eq _ _) eq_refl). apply (Hq _ info_name). }
  rewrite (g_strcmp0_ne _ _ H1).
  destruct (decide (property = "Label")) as [->|H2].
  { rewrite (proj2 (g_strcmp0_eq _ _) eq_refl). apply (Hq _ info_label). }
  rewrite (g_strcmp0_ne _ _ H2).
  destruct (decide (property = "NumLines")) as [->|H3].
  { rewrite (proj2 (g_strcmp0_eq _ _) eq_refl). apply (Hq _ info_num_lines). }
  by rewrite (g_strcmp0_ne _ _ H3).
Qed.

Lemma no_stale_object_of_inv s : registry_inv s → no_stale_object s.
Proof.
  intros I i path q Hi. destruct (inv_objects s I i path q Hi) as (c & Hc & _).
  destruct (inv_heap s I q c Hc) as [n Hn].
  destruct (inv_entries s I n q Hn) as (c' & h & ? & Hc' & Hh & Ho & _).
  exists c', h. done.
Qed.

(** ** Entries and their bus objects *)

Lemma entries_bound_frame s s' :
  ctx s' = ctx s → heap s' = heap s → bus_objects s' = bus_objects s →
  entries_bound s → entries_bound s'.
Proof. intros Hc Hh Hb H name p c. rewrite Hc, Hh, Hb. apply H. Qed.

Lemma entries_bound_add s s' name p h i :
  registry_inv s → entries_bound s →
  chips (ctx s) !! name = None → heap s !! p = None → bus_objects s !! i = None →
  bus (ctx s') = bus (ctx s) →
  chips (ctx s') = <[name := p]> (chips (ctx s)) →
  heap s' = <[p := mkChipCtx (Some h) i (bus (ctx s))]> (heap s) →
  bus_objects s' = <[i := ("/org/gpiod/" +:+ name, p)]> (bus_objects s) →
  entries_bound s'.
Proof.
  intros I B Hname Hp Hi Eb Ec Eh Eo n q c. rewrite Ec, Eh, Eo, Eb.
  destruct (decide (name = n)) as [<-|Hne].
  - rewrite lookup_insert_eq. intros [= <-]. rewrite lookup_insert_eq. intros [= <-].
    simpl. by rewrite lookup_insert_eq.
  - rewrite lookup_insert_ne by done. intros Hn.
    destruct (block_of_entry s n q I Hn) as [c' Hc'].
    rewrite lookup_insert_ne by congruence. intros Hq.
    destruct (B n q c Hn Hq) as [Hconn Hobj]. split; [done|].
    rewrite lookup_insert_ne; [done|congruence].
Qed.

Lemma entries_bound_remove s s' name p c :
  registry_inv s → entries_bound s →
  chips (ctx s) !! name = Some p → heap s !! p = Some c →
  bus (ctx s') = bus (ctx s) →
  chips (ctx s') = delete name (chips (ctx s)) →
  heap s' = delete p (heap s) →
  bus_objects s' = delete (obj_id c) (bus_objects s) →
  entries_bound s'.
Proof.
  intros I B Hname Hp Eb Ec Eh Eo n q c'. rewrite Ec, Eh, Eo, Eb.
  intros Hn Hq. apply lookup_delete_Some in Hn as [Hne Hn].
  apply lookup_delete_Some in Hq as [Hqp Hq].
  destruct (B n q c' Hn Hq) as [Hconn Hobj]. split; [done|].
  rewrite lookup_delete_ne; [done|]. intros E.
  destruct (B name p c Hname Hp) as [_ Hobj']. rewrite E in Hobj'. congruence.
Qed.

Lemma destroy_chip_dev_keeps_bound dev s :
  registry_inv s → entries_bound s → entries_bound (final_state (destroy_chip_dev dev s)).
Proof.
  intros I B. destruct (chips (ctx s) !! g_udev_device_get_name dev) as [p|] eqn:Hk.
  - destruct (inv_entries s I _ p Hk) as (c & h & path & Hp & Hh & _ & Hz & _).
    rewrite (destroy_chip_dev_present dev p c s Hk Hp). simpl.
    rewrite (destroyed_whole p c h) by done.
    by eapply (entries_bound_remove s _ _ p c).
  - rewrite (destroy_chip_dev_absent dev s Hk). simpl. by apply (entries_bound_frame s).
Qed.

Lemma register_keeps_bound P dev s :
  registry_inv s → entries_bound s →
  entries_bound (final_state (register_chip_object P dev s)).
Proof.
  intros I B.
  destruct (chip_probe P (g_udev_device_get_name dev) (at_open dev s)) as [info|] eqn:Hprobe.
  2:{ rewrite (register_open_fails P dev s Hprobe). simpl. by apply (entries_bound_frame s). }
  destruct (bus_accepts P (obj_path dev) (at_register dev info s)) eqn:Hbus.
  2:{ rewrite (register_bus_refuses P dev s info Hprobe Hbus).
      destruct (bus_error P (obj_path dev) (at_register dev info s)); simpl;
        by apply (entries_bound_frame s). }
  rewrite (register_reaches_insert P dev s info Hprobe Hbus).
  destruct (new_obj_id_fresh s) as [Hi Hnz].
  destruct (chips (ctx s) !! g_udev_device_get_name dev) as [old|] eqn:Hk.
  - destruct (inv_entries s I _ old Hk) as (c & h & path & Hp & Hh & Ho & Hz & Hb).
    assert (old ≠ new_block s) as Hne.
    { intros ->. by rewrite new_block_fresh in Hp. }
    rewrite (insert_step_duplicate _ _ old c); [|done|simpl; by rewrite lookup_insert_ne].
    simpl. rewrite (destroyed_whole old c h) by done.
    set (s_r := destroyed old c
                  (set_ctx (set_chips (delete (g_udev_device_get_name dev))) s)).
    assert (Hr : s_r = set_heap (delete old)
                         (log_event (EvUnregisterObject (obj_id c))
                            (set_bus_objects (delete (obj_id c))
                               (log_event (EvChipClose h)
                                  (set_open_chips (delete h)
                                     (set_ctx (set_chips (delete (g_udev_device_get_name dev)))
                                        s))))))
      by (by apply destroyed_whole).
    assert (registry_inv s_r) as Ir.
    { rewrite Hr. by eapply (registry_inv_remove s _ _ old c h). }
    assert (entries_bound s_r) as Br.
    { rewrite Hr. by eapply (entries_bound_remove s _ _ old c). }
    eapply (entries_bound_add s_r _ (g_udev_device_get_name dev) (new_block s)
              (new_handle s) (new_obj_id s)); [done|done|..]; rewrite ?Hr; simpl.
    + apply lookup_delete_eq.
    + rewrite lookup_delete_ne by done. apply new_block_fresh.
    + apply lookup_delete_None. by right.
    + done.
    + by rewrite insert_delete_eq.
    + by rewrite delete_insert_ne.
    + rewrite delete_insert_ne; [done|]. intros E. rewrite E, Hi in Hb. done.
  - rewrite (insert_step_new _ _ (at_insert dev info s)) by done. simpl.
    by eapply (entries_bound_add s _ (g_udev_device_get_name dev) (new_block s)
                 (new_handle s) (new_obj_id s)); eauto using new_block_fresh.
Qed.

Lemma derived_path_inj n1 n2 : "/org/gpiod/" +:+ n1 = "/org/gpiod/" +:+ n2 → n1 = n2.
Proof. simpl. intros H. by simplify_eq. Qed.

Lemma object_at_Some path s q :
  object_at path s = Some q → ∃ i, bus_objects s !! i = Some (path, q).
Proof.
  unfold object_at.
  destruct (list_find _ _) as [[n [i [pth q']]]|] eqn:E; [|done].
  intros [= <-]. apply list_find_Some in E as (Hl & Hpath & _). simpl in Hpath. subst pth.
  exists i. apply elem_of_map_to_list, list_elem_of_lookup. eauto.
Qed.

Lemma object_at_None path s i q :
  object_at path s = None → bus_objects s !! i ≠ Some (path, q).
Proof.
  unfold object_at.
  destruct (list_find _ _) as [[n [i' [pth q']]]|] eqn:E; [done|].
  intros _ Hi. apply list_find_None in E.
  apply elem_of_map_to_list in Hi.
  by apply (proj1 (Forall_forall _ _) E (i, (path, q)) Hi).
Qed.

Lemma entries_bound_initial : entries_bound initial_state.
Proof. intros n p c. simpl. by rewrite lookup_empty. Qed.

Lemma entries_bound_one_chip : entries_bound one_chip.
Proof.
  apply register_keeps_bound; [apply registry_inv_initial|apply entries_bound_initial].
Qed.

(** ** Enumeration at name acquisition *)

Lemma create_chip_list_cb_cases P dev s :
  create_chip_list_cb P dev s
  = match g_udev_device_get_device_file dev with
    | Some _ => register_chip_object P dev s
    | None => Ret () s
    end.
Proof.
  unfold create_chip_list_cb.
  destruct (g_udev_device_get_device_file dev) eqn:E.
  - by rewrite is_gpiochip_device_true by (rewrite E; eauto).
  - by rewrite is_gpiochip_device_false.
Qed.

Lemma foreach_create_filters P devs s :
  g_list_foreach devs (create_chip_list_cb P) s
  = g_list_foreach (filter has_device_file devs) (register_chip_object P) s.
Proof.
  revert s. induction devs as [|d devs IH]; intros s; [done|].
  simpl. rewrite run_bind, create_chip_list_cb_cases.
  destruct (g_udev_device_get_device_file d) eqn:E.
  - rewrite filter_cons_True by (unfold has_device_file; rewrite E; eauto).
    simpl. rewrite run_bind. destruct (register_chip_object P d s); [apply IH|done].
  - rewrite filter_cons_False; [apply IH|].
    unfold has_device_file. rewrite E. by intros [? ?].
Qed.

Lemma on_name_acquired_run P conn name s :
  on_name_acquired P conn name s
  = g_list_foreach (filter has_device_file (udev_gpio_devices P (at_enumeration name s)))
                   (register_chip_object P) (at_enumeration name s).
Proof.
  unfold on_name_acquired, g_signal_connect_uevent, g_udev_client_query_by_subsystem, get_state.
  mrun. apply foreach_create_filters.
Qed.

Lemma on_uevent_cases P action dev s :
  on_uevent P action dev s
  = match g_udev_device_get_device_file dev with
    | None => Ret () s
    | Some _ =>
        if decide (action = "add") then
          register_chip_object P dev (log_event (uevent_msg action dev) s)
        else if decide (action = "remove") then
          destroy_chip_dev dev (log_event (uevent_msg action dev) s)
        else
          Ret () (log_event (EvLog LevelWarning "unknown action for uevent: %s" [action])
                    (log_event (uevent_msg action dev) s))
    end.
Proof.
  destruct (g_udev_device_get_device_file dev) eqn:E; [|by apply on_uevent_skips].
  unfold on_uevent. rewrite is_gpiochip_device_true by (rewrite E; eauto).
  simpl. rewrite run_bind. simpl. fold (uevent_msg action dev).
  destruct (decide (action = "add")) as [->|H1].
  { by rewrite (proj2 (g_strcmp0_eq _ _) eq_refl). }
  rewrite (g_strcmp0_ne _ _ H1).
  destruct (decide (action = "remove")) as [->|H2].
  { by rewrite (proj2 (g_strcmp0_eq _ _) eq_refl). }
  by rewrite (g_strcmp0_ne _ _ H2).
Qed.

(** ** What the chip operations may do to the state *)

Global Instance grown_tolerates : Tolerates grown.
Proof.
  split.
  - split.
    + intros s. exists []. by rewrite app_nil_r.
    + intros s1 s2 s3 (n1 & E1 & F1) (n2 & E2 & F2). exists (n1 ++ n2)%list.
      rewrite E2, E1, app_assoc. split; [done|]. by apply Forall_app.
  - intros g s. exists []. by rewrite app_nil_r.
  - intros g s. exists []. by rewrite app_nil_r.
  - intros g s. exists []. by rewrite app_nil_r.
  - intros g s. exists []. by rewrite app_nil_r.
  - intros e s He. exists [e]. split; [done|]. by apply Forall_singleton.
Qed.

Global Instance kept_loop_running_tolerates : Tolerates (kept loop_running).
Proof. split; [split|..]; unfold kept; try done. intros s1 s2 s3. congruence. Qed.

Global Instance kept_uevent_handlers_tolerates : Tolerates (kept uevent_handlers).
Proof. split; [split|..]; unfold kept; try done. intros s1 s2 s3. congruence. Qed.

Section Respects.

Context (R : State → State → Prop) `{!Tolerates R}.

Lemma respects_ret {A} (a : A) : respects R (mret a : M A).
Proof. intros s. simpl. reflexivity. Qed.

Lemma respects_halt {A} why : respects R (halt why : M A).
Proof. intros s. simpl. reflexivity. Qed.

Lemma respects_bind {A B} (m : M A) (f : A → M B) :
  respects R m → (∀ a, respects R (f a)) → respects R (m ≫= f).
Proof.
  intros Hm Hf s. rewrite run_bind. specialize (Hm s).
  destruct (m s) as [a s1|why s1]; simpl in *; [|done].
  transitivity s1; [done|apply Hf].
Qed.

Lemma respects_get_state : respects R get_state.
Proof. intros s. simpl. reflexivity. Qed.

Lemma respects_log lvl fmt args : respects R (g_log lvl fmt args).
Proof. intros s. simpl. by apply tol_log. Qed.

Lemma respects_assert b : respects R (g_assert_true b).
Proof. destruct b; [apply respects_ret|apply respects_halt]. Qed.

Lemma respects_malloc : respects R g_malloc0.
Proof. intros s. simpl. apply tol_heap. Qed.

Lemma respects_read {A} p (field : ChipCtx → A) : respects R (read p field).
Proof. intros s. unfold read. destruct (heap s !! p); simpl; reflexivity. Qed.

Lemma respects_modify_ctx g : respects R (modify (set_ctx g)).
Proof. intros s. simpl. apply tol_ctx. Qed.

Lemma respects_modify_heap g : respects R (modify (set_heap g)).
Proof. intros s. simpl. apply tol_heap. Qed.

Lemma respects_write p upd : respects R (write p upd).
Proof.
  apply respects_bind; [apply respects_read|]. intros c. apply respects_modify_heap.
Qed.

Lemma respects_free p : respects R (g_free p).
Proof.
  apply respects_bind; [apply respects_read|]. intros c. apply respects_modify_heap.
Qed.

Lemma respects_deref {A B} (p : option A) (field : A → B) : respects R (deref p field).
Proof. intros s. destruct p; simpl; reflexivity. Qed.

Lemma respects_open P devname : respects R (gpiod_chip_open_by_name P devname).
Proof.
  intros s. unfold gpiod_chip_open_by_name.
  destruct (chip_probe P devname s); simpl.
  - etransitivity; [apply tol_open|by apply tol_log].
  - by apply tol_log.
Qed.

Lemma respects_close h : respects R (gpiod_chip_close h).
Proof. intros s. simpl. etransitivity; [apply tol_open|by apply tol_log]. Qed.

Lemma respects_query {A} (field : ChipInfo → A) h : respects R (gpiod_chip_query field h).
Proof.
  intros s. unfold gpiod_chip_query.
  destruct h as [h|]; [destruct (open_chips s !! h)|]; simpl; reflexivity.
Qed.

Lemma respects_register_object P conn path user_data :
  respects R (g_dbus_connection_register_object P conn path user_data).
Proof.
  intros s. unfold g_dbus_connection_register_object.
  destruct (bus_accepts P path s); simpl.
  - etransitivity; [apply tol_bus|by apply tol_log].
  - by apply tol_log.
Qed.

Lemma respects_unregister_object conn i :
  respects R (g_dbus_connection_unregister_object conn i).
Proof. intros s. simpl. etransitivity; [apply tol_bus|by apply tol_log]. Qed.

Lemma respects_foreach {A} (l : list A) (f : A → M unit) :
  (∀ x, respects R (f x)) → respects R (g_list_foreach l f).
Proof.
  intros Hf. induction l as [|x l IH]; [apply respects_ret|].
  simpl. apply respects_bind; [apply Hf|]. intros _. apply IH.
Qed.

Create HintDb respects.

Hint Resolve respects_ret respects_halt respects_get_state respects_log respects_assert
  respects_malloc respects_read respects_modify_ctx respects_modify_heap respects_write
  respects_free respects_deref respects_open respects_close respects_query respects_register_object
  respects_unregister_object : respects.

Ltac respects_step :=
  first
    [ solve [eauto with respects]
    | apply respects_bind; [|intros ?]
    | match goal with
      | |- respects _ (match ?x with _ => _ end) => destruct x
      end ].

Lemma respects_destroy_chip_object p : respects R (destroy_chip_object p).
Proof. unfold destroy_chip_object. repeat respects_step. Qed.

Lemma respects_hash_table_insert key value : respects R (g_hash_table_insert key value).
Proof.
  unfold g_hash_table_insert. repeat respects_step.
Qed.

Lemma respects_hash_table_remove key : respects R (g_hash_table_remove key).
Proof.
  unfold g_hash_table_remove. repeat respects_step.
Qed.

Lemma respects_register_chip_object P dev : respects R (register_chip_object P dev).
Proof.
  unfold register_chip_object, g_debug, g_warning.
  repeat respects_step.
Qed.

Lemma respects_destroy_chip_dev dev : respects R (destroy_chip_dev dev).
Proof.
  unfold destroy_chip_dev, g_debug. repeat respects_step.
Qed.

Lemma respects_on_uevent P action dev : respects R (on_uevent P action dev).
Proof.
  unfold on_uevent, g_debug, g_warning.
  repeat respects_step.
Qed.

Lemma respects_property_get sender object interface property p :
  respects R (on_chip_property_get sender object interface property p).
Proof.
  unfold on_chip_property_get, g_debug, gpiod_chip_name, gpiod_chip_label,
    gpiod_chip_num_lines.
  repeat respects_step.
Qed.

End Respects.

Lemma respects_foreach_register R `{!Tolerates R} P devs :
  respects R (g_list_foreach devs (register_chip_object P)).
Proof. apply respects_foreach; [done|]. intros dev. by apply respects_register_chip_object. Qed.

(** ** Outcomes of the daemon under the registry invariant *)

Lemma sound_bind {A B} (m : M A) (f : A → M B) s :
  sound (m s) → (∀ a s', m s = Ret a s' → registry_inv s' → sound (f a s')) →
  sound ((m ≫= f) s).
Proof. intros Hm Hf. rewrite run_bind. destruct (m s); [by apply Hf|done]. Qed.

Lemma sound_foreach {A} (l : list A) (f : A → M unit) s :
  (∀ x s0, registry_inv s0 → sound (f x s0)) → registry_inv s →
  sound (g_list_foreach l f s).
Proof.
  intros Hf. revert s. induction l as [|x l IH]; intros s I; [done|].
  simpl. apply sound_bind; [by apply Hf|]. intros _ s' _ I'. by apply IH.
Qed.

Lemma sound_register P dev s : registry_inv s → sound (register_chip_object P dev s).
Proof.
  intros I. pose proof (register_preserves_inv P dev s I) as I'.
  destruct (chip_probe P (g_udev_device_get_name dev) (at_open dev s)) as [info|] eqn:Hprobe.
  2:{ by rewrite (register_open_fails P dev s Hprobe) in *. }
  destruct (bus_accepts P (obj_path dev) (at_register dev info s)) eqn:Hbus.
  2:{ rewrite (register_bus_refuses P dev s info Hprobe Hbus) in *.
      by destruct (bus_error P (obj_path dev) (at_register dev info s)). }
  rewrite (register_reaches_insert P dev s info Hprobe Hbus) in *.
  destruct (chips (ctx s) !! g_udev_device_get_name dev) as [old|] eqn:Hk.
  - destruct (inv_entries s I _ old Hk) as (c & h & path & Hp & _).
    assert (old ≠ new_block s) as Hne.
    { intros ->. by rewrite new_block_fresh in Hp. }
    by rewrite (insert_step_duplicate _ _ old c); [|done|simpl; by rewrite lookup_insert_ne].
  - by rewrite (insert_step_new _ _ (at_insert dev info s)) in *.
Qed.

Lemma sound_destroy_chip_dev dev s : registry_inv s → sound (destroy_chip_dev dev s).
Proof.
  intros I. pose proof (destroy_chip_dev_preserves_inv dev s I) as I'.
  destruct (chips (ctx s) !! g_udev_device_get_name dev) as [p|] eqn:Hk.
  - destruct (block_of_entry s _ p I Hk) as [c Hc].
    by rewrite (destroy_chip_dev_present dev p c s Hk Hc) in *.
  - by rewrite (destroy_chip_dev_absent dev s Hk).
Qed.

Lemma sound_on_uevent P action dev s : registry_inv s → sound (on_uevent P action dev s).
Proof.
  intros I. rewrite on_uevent_cases.
  destruct (g_udev_device_get_device_file dev); [|done].
  assert (registry_inv (log_event (uevent_msg action dev) s)) by (by apply (registry_inv_frame s)).
  repeat case_decide.
  - by apply sound_register.
  - by apply sound_destroy_chip_dev.
  - simpl. by apply (registry_inv_frame s).
Qed.

Lemma sound_on_name_acquired P conn name s :
  registry_inv s → sound (on_name_acquired P conn name s).
Proof.
  intros I. rewrite on_name_acquired_run. apply sound_foreach.
  - intros dev s0. apply sound_register.
  - by apply (registry_inv_frame s).
Qed.

Lemma on_name_lost_run P conn name s :
  on_name_lost P conn name s
  = Halt (Exited EXIT_FAILURE)
      (log_event
         (match conn with
          | None => EvLog LevelCritical "unable to make connection to the bus" []
          | Some c =>
              if connection_closed P c (log_event (EvLog LevelDebug "DBus name lost: '%s'" [name]) s)
              then EvLog LevelCritical "connection to the bus closed, dying..." []
              else EvLog LevelCritical "name '%s' lost on the bus, dying..." [name]
          end)
         (log_event (EvLog LevelDebug "DBus name lost: '%s'" [name]) s)).
Proof.
  unfold on_name_lost. rewrite run_bind. simpl.
  destruct conn as [c|]; [|done].
  rewrite run_bind. unfold g_dbus_connection_is_closed.
  by destruct (connection_closed P c _).
Qed.

Lemma object_at_registered path s user_data :
  object_at path s = Some user_data →
  ∃ i pth, bus_objects s !! i = Some (pth, user_data).
Proof.
  unfold object_at.
  destruct (list_find _ _) as [[n [i [pth q]]]|] eqn:E; [|done].
  intros [= <-]. apply list_find_Some in E as (Hl & _).
  exists i, pth. apply elem_of_map_to_list, list_elem_of_lookup. eauto.
Qed.

Lemma property_dispatch_run P sender object interface property s :
  registry_inv s →
  ∃ s', dispatch P (PropertyGet sender object interface property) s = Ret () s' ∧
        ctx s' = ctx s ∧ heap s' = heap s ∧ open_chips s' = open_chips s ∧
        bus_objects s' = bus_objects s ∧ loop_running s' = loop_running s.
Proof.
  intros I. unfold dispatch, get_state. rewrite run_bind.
  destruct (object_at object s) as [p|] eqn:E; [|by exists s].
  destruct (object_at_registered _ _ _ E) as (i & pth & Hi).
  destruct (no_stale_object_of_inv s I i pth p Hi) as (c & h & Hc & Hh & [info Ho]).
  rewrite run_bind, (property_get_run _ _ _ _ p c h info) by done.
  eexists. split; [done|]. done.
Qed.

Lemma sound_dispatch P e s : registry_inv s → sound (dispatch P e s).
Proof.
  intros I. destruct e; simpl.
  - by apply (registry_inv_frame s).
  - by apply (registry_inv_frame s).
  - by apply (registry_inv_frame s).
  - by apply (registry_inv_frame s).
  - by apply sound_on_name_acquired.
  - by rewrite on_name_lost_run.
  - unfold get_state. rewrite run_bind. apply sound_foreach; [|done].
    intros _ s0. apply sound_on_uevent.
  - destruct (property_dispatch_run P sender object interface property s I)
      as (s' & Hrun & Hc & ? & ? & ? & _).
    unfold dispatch in Hrun. rewrite Hrun. simpl.
    apply (registry_inv_frame s); [by rewrite Hc|done..].
Qed.

Lemma sound_main_loop_iterate P iterations s :
  registry_inv s → sound (main_loop_iterate P iterations s).
Proof.
  revert s. induction iterations as [|ready later IH]; intros s I; [done|].
  simpl. apply sound_bind.
  - apply sound_foreach; [|done]. intros e s0. apply sound_dispatch.
  - intros _ s' _ I'. unfold get_state. rewrite run_bind.
    destruct (loop_running s'); [by apply IH|done].
Qed.

(** ** The main loop and the exit status *)

Lemma main_help P cmd xml_ok iterations :
  help_requested cmd = true →
  main P cmd xml_ok iterations initial_state = Halt (Exited 0) initial_state.
Proof.
  intros Hh. unfold main, parse_opts, g_option_context_parse. by rewrite Hh.
Qed.

Lemma main_started P cmd iterations :
  help_requested cmd = false → parse_ok cmd = true →
  main P cmd true iterations initial_state
  = (g_main_loop_run P iterations ;; shutdown cmd) (started cmd).
Proof.
  intros Hh Hp. unfold main, parse_opts, g_option_context_parse, shutdown.
  rewrite Hh, Hp. simpl. unfold g_bus_own_name. mrun. done.
Qed.

Lemma main_bad_options P cmd xml_ok iterations :
  help_requested cmd = false → parse_ok cmd = false →
  exit_status (main P cmd xml_ok iterations initial_state) = Some EXIT_FAILURE.
Proof.
  intros Hh Hp. unfold main, parse_opts, g_option_context_parse. rewrite Hh, Hp.
  reflexivity.
Qed.

Lemma main_bad_xml P cmd iterations :
  help_requested cmd = false →
  exit_status (main P cmd false iterations initial_state) = Some EXIT_FAILURE.
Proof.
  intros Hh. destruct (parse_ok cmd) eqn:Hp; [|by apply main_bad_options].
  unfold main, parse_opts, g_option_context_parse. rewrite Hh, Hp. reflexivity.
Qed.

Lemma registry_inv_started cmd : registry_inv (started cmd).
Proof. apply (registry_inv_frame initial_state); [done..|apply registry_inv_initial]. Qed.

Lemma shutdown_returns cmd s :
  registry_inv s → ∃ s', shutdown cmd s = Ret EXIT_SUCCESS s'.
Proof.
  intros I. destruct (hash_table_destroy_clears s I) as (s' & Hrun & _).
  unfold shutdown. rewrite run_bind, Hrun. eexists. done.
Qed.

Lemma dispatch_keeps_running P e :
  is_quit_signal e = false → respects (kept loop_running) (dispatch P e).
Proof.
  intros He s. destruct e; try done; unfold kept.
  - simpl. rewrite on_name_acquired_run.
    by rewrite (respects_foreach_register (kept loop_running) P _ (at_enumeration name s)).
  - simpl. by rewrite on_name_lost_run.
  - simpl. unfold get_state. rewrite run_bind.
    refine (respects_foreach (kept loop_running) _ _ _ s).
    intros _. apply (respects_on_uevent (kept loop_running)).
  - unfold dispatch, get_state. rewrite run_bind.
    destruct (object_at object s) as [p|]; [|done].
    refine (respects_bind (kept loop_running) _ _ _ _ s).
    + apply (respects_property_get (kept loop_running)).
    + intros. apply (respects_ret (kept loop_running)).
Qed.

Lemma foreach_keeps_running P l :
  existsb is_quit_signal l = false →
  respects (kept loop_running) (g_list_foreach l (dispatch P)).
Proof.
  induction l as [|e l IH]; intros Hl; [by intros s|].
  simpl in Hl. apply orb_false_iff in Hl as [He Hl].
  simpl. apply (respects_bind (kept loop_running)); [by apply dispatch_keeps_running|].
  intros _. by apply IH.
Qed.

Lemma foreach_returns_without_name_lost P l s s' :
  g_list_foreach l (dispatch P) s = Ret () s' → existsb is_name_lost l = false.
Proof.
  revert s. induction l as [|e l IH]; intros s; [done|].
  simpl. rewrite run_bind.
  destruct (dispatch P e s) as [[] s1|] eqn:E; [|done].
  intros Hl. rewrite (IH s1 Hl), orb_false_r.
  destruct e; try done. simpl in E. by rewrite on_name_lost_run in E.
Qed.

Lemma loop_stops_by_signal P iterations s s1 :
  loop_running s = true → main_loop_iterate P iterations s = Ret () s1 →
  loop_running s1 = false ∧
  ∃ pre it post,
    iterations = (pre ++ it :: post)%list ∧ existsb is_quit_signal it = true ∧
    Forall (λ ready, existsb is_name_lost ready = false) (pre ++ [it])%list.
Proof.
  revert s. induction iterations as [|ready later IH]; intros s Hs; [done|].
  simpl. rewrite run_bind.
  destruct (g_list_foreach ready (dispatch P) s) as [[] s2|] eqn:E; [|done].
  pose proof (foreach_returns_without_name_lost P ready s s2 E) as Hnl.
  unfold get_state. rewrite run_bind.
  destruct (loop_running s2) eqn:Hr.
  - intros Hrun. destruct (IH s2 Hr Hrun) as (Hstop & pre & it & post & -> & Hq & Hf).
    split; [done|]. exists (ready :: pre), it, post.
    split; [done|]. split; [done|]. by constructor.
  - intros [= <-]. split; [done|]. exists [], ready, later.
    split; [done|]. split; [|by constructor].
    destruct (existsb is_quit_signal ready) eqn:Hq; [done|].
    pose proof (foreach_keeps_running P ready Hq s) as Hk. rewrite E in Hk.
    unfold kept in Hk. simpl in Hk. congruence.
Qed.

Lemma stopped_stays_stopped P e s :
  loop_running s = false → loop_running (final_state (dispatch P e s)) = false.
Proof.
  intros Hs. destruct (is_quit_signal e) eqn:He.
  - by destruct e.
  - by rewrite (dispatch_keeps_running P e He s).
Qed.

Lemma foreach_stays_stopped P ready s :
  loop_running s = false →
  loop_running (final_state (g_list_foreach ready (dispatch P) s)) = false.
Proof.
  revert s. induction ready as [|e ready IH]; intros s Hs; [done|].
  simpl. rewrite run_bind. pose proof (stopped_stays_stopped P e s Hs) as He.
  destruct (dispatch P e s) as [[] s1|why s1]; [by apply IH|done].
Qed.

Lemma foreach_with_quit_signal_stops P ready s s' :
  existsb is_quit_signal ready = true →
  g_list_foreach ready (dispatch P) s = Ret () s' → loop_running s' = false.
Proof.
  revert s. induction ready as [|e ready IH]; intros s Hq; [done|].
  simpl in Hq. simpl. rewrite run_bind.
  destruct (is_quit_signal e) eqn:He.
  - assert (loop_running (final_state (dispatch P e s)) = false) as Hs by (by destruct e).
    destruct (dispatch P e s) as [[] s1|why s1]; [|done].
    intros Hrun. pose proof (foreach_stays_stopped P ready s1 Hs) as Hf.
    by rewrite Hrun in Hf.
  - destruct (dispatch P e s) as [[] s1|why s1]; [by apply IH|done].
Qed.

Lemma iterate_resumes P pre rest s0 s :
  after_iterations P pre s0 = Some s →
  main_loop_iterate P (pre ++ rest) s0 = main_loop_iterate P rest s.
Proof.
  revert s0. induction pre as [|ready pre IH]; intros s0; [by intros [= <-]|].
  simpl. rewrite run_bind.
  destruct (g_list_foreach ready (dispatch P) s0) as [[] s1|]; [|done].
  unfold get_state. rewrite run_bind.
  destruct (loop_running s1); [apply IH|done].
Qed.

Lemma main_returns_iff_loop_returns P cmd xml_ok iterations :
  help_requested cmd = false →
  (exit_status (main P cmd xml_ok iterations initial_state) = Some EXIT_SUCCESS ↔
   parse_ok cmd = true ∧ xml_ok = true ∧
   ∃ s1, g_main_loop_run P iterations (started cmd) = Ret () s1).
Proof.
  intros Hh. destruct (parse_ok cmd) eqn:Hp.
  2:{ rewrite (main_bad_options P cmd xml_ok iterations Hh Hp).
      split; [done|]. by intros [? _]. }
  destruct xml_ok.
  2:{ rewrite (main_bad_xml P cmd iterations Hh). split; [done|]. by intros (_ & ? & _). }
  rewrite (main_started P cmd iterations Hh Hp), run_bind.
  assert (Hsound : sound (g_main_loop_run P iterations (started cmd))).
  { unfold g_main_loop_run. rewrite run_bind. simpl.
    apply sound_main_loop_iterate. by apply (registry_inv_frame (started cmd)),
      registry_inv_started. }
  destruct (g_main_loop_run P iterations (started cmd)) as [[] s1|why s1].
  - destruct (shutdown_returns cmd s1 Hsound) as [s' ->]. simpl. split; [eauto|done].
  - split; [|by intros (_ & _ & ? & ?)].
    destruct why; simpl in *; try done. rewrite Hsound. done.
Qed.

Lemma main_status_is_success_or_failure P cmd xml_ok iterations status :
  exit_status (main P cmd xml_ok iterations initial_state) = Some status →
  status = EXIT_SUCCESS ∨ status = EXIT_FAILURE.
Proof.
  destruct (help_requested cmd) eqn:Hh.
  { rewrite (main_help P cmd xml_ok iterations Hh). intros [= <-]. by left. }
  destruct (parse_ok cmd) eqn:Hp.
  2:{ rewrite (main_bad_options P cmd xml_ok iterations Hh Hp). intros [= <-]. by right. }
  destruct xml_ok.
  2:{ rewrite (main_bad_xml P cmd iterations Hh). intros [= <-]. by right. }
  rewrite (main_started P cmd iterations Hh Hp), run_bind.
  assert (Hsound : sound (g_main_loop_run P iterations (started cmd))).
  { unfold g_main_loop_run. rewrite run_bind. simpl.
    apply sound_main_loop_iterate. by apply (registry_inv_frame (started cmd)),
      registry_inv_started. }
  destruct (g_main_loop_run P iterations (started cmd)) as [[] s1|why s1].
  - destruct (shutdown_returns cmd s1 Hsound) as [s' ->]. simpl. intros [= <-]. by left.
  - destruct why; simpl in *; try done. intros [= <-]. by right.
Qed.

(** A quit signal in an iteration that runs to completion ends [main]
    with status 0, whatever iterations would follow. *)
Lemma main_exits_zero_after_quit_signal P cmd pre ready later s s' :
  help_requested cmd = false → parse_ok cmd = true →
  after_iterations P pre (set_loop_running true (started cmd)) = Some s →
  existsb is_quit_signal ready = true →
  g_list_foreach ready (dispatch P) s = Ret () s' →
  g_main_loop_run P (pre ++ ready :: later) (started cmd) = Ret () s' ∧
  exit_status (main P cmd true (pre ++ ready :: later) initial_state) = Some 0%Z.
Proof.
  intros Hh Hp Hpre Hq Hrun.
  assert (Hloop : g_main_loop_run P (pre ++ ready :: later) (started cmd) = Ret () s').
  { unfold g_main_loop_run. rewrite run_bind. simpl.
    rewrite (iterate_resumes P pre _ _ s Hpre). simpl. rewrite run_bind, Hrun.
    unfold get_state. rewrite run_bind.
    by rewrite (foreach_with_quit_signal_stops P ready s s' Hq Hrun). }
  split; [done|].
  apply (main_returns_iff_loop_returns P cmd true _ Hh). eauto.
Qed.

(** A name-lost event ends [main] with [EXIT_FAILURE]. *)
Lemma main_fails_when_the_name_is_lost P cmd pre conn name rest later s :
  help_requested cmd = false → parse_ok cmd = true →
  after_iterations P pre (set_loop_running true (started cmd)) = Some s →
  exit_status (main P cmd true (pre ++ (NameLost conn name :: rest) :: later) initial_state)
  = Some EXIT_FAILURE.
Proof.
  intros Hh Hp Hpre. rewrite (main_started P cmd _ Hh Hp), run_bind.
  unfold g_main_loop_run. rewrite run_bind. simpl.
  rewrite (iterate_resumes P pre _ _ s Hpre). simpl. rewrite !run_bind.
  by rewrite on_name_lost_run.
Qed.

(** ** The claims *)

(** C1 as worded does not hold.  On the registry that holds gpiochip0, a
    registered device, the events added by the removal do not have the
    unregistration of the bus object before the closing of the handle. *)
Lemma remove_closes_before_unregistering :
  registry_inv one_chip ∧ ¬ unregisters_before_closing gpiochip0 one_chip.
Proof.
  split; [apply register_preserves_inv, registry_inv_initial|].
  intros H.
  specialize (H 1%positive (mkChipCtx (Some 1%positive) 1%N None) 1%positive
                eq_refl eq_refl eq_refl).
  vm_compute in H. discriminate H.
Qed.

(** C1, as the code has it.  For a registered device the remove-sequence
    first takes the entry out of the registry map and destroys it in a
    state where the map no longer has it; the destruction closes the chip
    handle and then unregisters the bus object.  Both happen inside the
    one call: when remove has returned the block is freed, the handle is
    closed, the object id is no longer registered, the registry invariant
    holds again, and no registered object is backed by a closed handle,
    so a property read issued after remove finds none. *)
Theorem remove_sequence_order dev s p c h :
  let name := g_udev_device_get_name dev in
  registry_inv s →
  chips (ctx s) !! name = Some p → heap s !! p = Some c → handle c = Some h →
  ∃ s',
    destroy_chip_dev dev s = Ret () s' ∧
    destroy_chip_dev dev s
    = destroy_chip_object p
        (set_ctx (set_chips (delete name)) (log_event (removing_msg dev) s)) ∧
    trace s' = (trace s ++ [removing_msg dev; EvChipClose h; EvUnregisterObject (obj_id c)])%list ∧
    chips (ctx s') = delete name (chips (ctx s)) ∧
    heap s' !! p = None ∧ open_chips s' !! h = None ∧ bus_objects s' !! obj_id c = None ∧
    registry_inv s' ∧ no_stale_object s'.
Proof.
  intros name I Hn Hp Hh.
  destruct (inv_entries s I name p Hn) as (c0 & ? & ? & Hp0 & _ & _ & Hz & _).
  assert (c0 = c) as -> by congruence.
  pose proof (destroy_chip_dev_preserves_inv dev s I) as I'.
  rewrite (destroy_chip_dev_present dev p c s Hn Hp) in *. simpl in I'.
  eexists. split; [done|].
  split. { by rewrite (destroy_chip_object_run p c). }
  rewrite (destroyed_whole p c h) in * by done. simpl.
  repeat split; try done.
  - by rewrite <- !app_assoc.
  - apply lookup_delete_eq.
  - apply lookup_delete_eq.
  - apply lookup_delete_eq.
  - apply I'.
  - apply I'.
  - apply I'.
  - apply I'.
  - apply I'.
  - apply I'.
  - by apply no_stale_object_of_inv.
Qed.

(** C2 as worded does not hold.  On the friendly machine the events
    added by [on_name_acquired] do not have the query of the device list
    before the connection of the uevent handler. *)
Lemma name_acquired_subscribes_first :
  ¬ enumerates_before_subscribing friendly 1%positive "org.gpiod" initial_state.
Proof. unfold enumerates_before_subscribing. vm_compute. discriminate. Qed.

(** C2, as the code has it.  When the bus name is granted the handler
    first connects the uevent handler (one more handler is connected
    afterwards), then queries the gpio devices, then adds each device
    that has a device file: the trace grows by the debug record, the
    subscription, the query, and after those only by chip events. *)
Theorem name_acquired_subscribes_then_enumerates P conn name s :
  let o := on_name_acquired P conn name s in
  ∃ adds,
    trace (final_state o)
    = (trace s ++ [name_acquired_msg name; EvSignalConnect "uevent";
                   EvQueryBySubsystem "gpio"] ++ adds)%list ∧
    Forall chip_event adds ∧
    uevent_handlers (final_state o) = S (uevent_handlers s) ∧
    o = g_list_foreach
          (filter has_device_file (udev_gpio_devices P (at_enumeration name s)))
          (register_chip_object P) (at_enumeration name s).
Proof.
  intros o. subst o. rewrite on_name_acquired_run.
  set (devs := filter _ _).
  destruct (respects_foreach_register grown P devs (at_enumeration name s)) as (adds & Ht & Hf).
  pose proof (respects_foreach_register (kept uevent_handlers) P devs (at_enumeration name s)) as Hk.
  exists adds. split; [|split; [done|split; [|done]]].
  - rewrite Ht. simpl. by rewrite <- !app_assoc.
  - by rewrite Hk.
Qed.

(** C3 holds on every path but one.  For a device name that is not in
    the registry: if the chip cannot be opened, the run returns with a
    warning logged and nothing else changed; if the chip opens and the
    object is registered, the entry is inserted; if the bus refuses the
    object and sets the error, the handle is closed again, a warning is
    logged, and nothing else has changed.  If the bus refuses the object
    without setting the error, the handle is closed and the block freed,
    and then the run does not log the warning and does not return: it
    ends in the read of [err->message] with [err] NULL.  After the run,
    however it ends, the name is in the registry if and only if the open
    and the registration both succeeded. *)
Theorem add_faults_on_a_refusal_without_error P dev s :
  let name := g_udev_device_get_name dev in
  chips (ctx s) !! name = None →
  match chip_probe P name (at_open dev s) with
  | None =>
      register_chip_object P dev s
      = Ret () (log_event (open_failed_msg dev)
                  (log_event (EvChipOpen name None)
                     (log_event (creating_msg dev) s)))
  | Some info =>
      if bus_accepts P (obj_path dev) (at_register dev info s) then
        register_chip_object P dev s
        = Ret () (set_ctx (set_chips <[name := new_block s]>) (at_insert dev info s))
      else
        match bus_error P (obj_path dev) (at_register dev info s) with
        | Some err =>
            register_chip_object P dev s
            = Ret () (log_event (register_failed_msg err) (after_refusal dev s))
        | None =>
            register_chip_object P dev s = Halt InvalidAccess (after_refusal dev s)
        end
  end ∧
  (is_Some (chips (ctx (final_state (register_chip_object P dev s))) !! name) ↔
   ∃ info, chip_probe P name (at_open dev s) = Some info ∧
           bus_accepts P (obj_path dev) (at_register dev info s) = true).
Proof.
  intros name Hk.
  destruct (chip_probe P name (at_open dev s)) as [info|] eqn:Hprobe.
  2:{ rewrite (register_open_fails P dev s Hprobe). split; [done|]. simpl.
      fold name. rewrite Hk. split; [by intros [? ?]|]. by intros (? & ? & ?). }
  destruct (bus_accepts P (obj_path dev) (at_register dev info s)) eqn:Hbus.
  - rewrite (register_reaches_insert P dev s info Hprobe Hbus).
    rewrite (insert_step_new _ _ (at_insert dev info s)) by done.
    split; [done|]. simpl. fold name. rewrite lookup_insert_eq. split; [|eauto].
    intros _. exists info. done.
  - rewrite (register_bus_refuses P dev s info Hprobe Hbus).
    destruct (bus_error P (obj_path dev) (at_register dev info s)); (split; [done|]); simpl;
      fold name; rewrite Hk; (split; [by intros [? ?]|]);
      intros (info' & [= <-] & Hb); congruence.
Qed.

(** C4.  In a consistent registry: the insertion with its assertion
    aborts when the name is already present and inserts and returns
    otherwise; the removal aborts when the name is absent, leaving the
    map as it was, and removes and returns otherwise.  For the whole
    add-sequence this means: it aborts by the assertion exactly when the
    name is present and the insertion is reached (the chip opened and the
    object was registered); in every other case the assertion does not
    fire, and the run returns unless the bus refused the object without
    setting the error, where it ends in the read of the unset error.  On
    a bus that holds one object per path at most, and with the entries
    bound to their objects, the insertion is never reached for a name
    that is present, so the add-sequence never aborts by the assertion. *)
Theorem registry_assertions P dev s :
  let name := g_udev_device_get_name dev in
  registry_inv s →
  (∀ value,
     match chips (ctx s) !! name with
     | Some _ => ∃ s', (ret ← g_hash_table_insert name value; g_assert_true ret) s
                       = Halt AssertionFailed s'
     | None => (ret ← g_hash_table_insert name value; g_assert_true ret) s
               = Ret () (set_ctx (set_chips <[name := value]>) s)
     end) ∧
  match chips (ctx s) !! name with
  | Some _ => ∃ s', destroy_chip_dev dev s = Ret () s' ∧ chips (ctx s') !! name = None
  | None => ∃ s', destroy_chip_dev dev s = Halt AssertionFailed s' ∧
                  chips (ctx s') = chips (ctx s)
  end ∧
  ((∃ s', register_chip_object P dev s = Halt AssertionFailed s') ↔
   is_Some (chips (ctx s) !! name) ∧ insertion_reached P dev s) ∧
  (¬ (is_Some (chips (ctx s) !! name) ∧ insertion_reached P dev s) →
   (∃ s', register_chip_object P dev s = Ret () s' ∧ ¬ refused_without_error P dev s) ∨
   (∃ s', register_chip_object P dev s = Halt InvalidAccess s' ∧
          refused_without_error P dev s)) ∧
  (entries_bound s → refuses_exported P → is_Some (chips (ctx s) !! name) →
   ¬ insertion_reached P dev s ∧
   ¬ ∃ s', register_chip_object P dev s = Halt AssertionFailed s').
Proof.
  intros name I. pose proof (register_outcome P dev s I) as Hreg. fold name in Hreg.
  destruct Hreg as (Hassert & Hfault & Hret).
  split; [|split; [|split; [|split]]].
  - intros value. destruct (chips (ctx s) !! name) as [old|] eqn:Hk.
    + destruct (block_of_entry s name old I Hk) as [c Hc].
      rewrite (insert_step_duplicate name value old c s Hk Hc). eauto.
    + by apply insert_step_new.
  - destruct (chips (ctx s) !! name) as [p|] eqn:Hk.
    + destruct (block_of_entry s name p I Hk) as [c Hc].
      rewrite (destroy_chip_dev_present dev p c s Hk Hc). eexists. split; [done|].
      unfold destroyed, after_unregister, after_close.
      destruct (obj_id c =? 0)%N, (handle c); simpl; apply lookup_delete_eq.
    + rewrite (destroy_chip_dev_absent dev s Hk). eauto.
  - apply Hassert.
  - intros Hn. by apply register_returns_or_faults.
  - intros B HP Hk.
    pose proof (present_name_is_refused P dev s I B HP Hk) as Hnr.
    split; [done|]. intros Ha. apply Hassert in Ha as [_ Ha]. by apply Hnr.
Qed.

(** C5.  The registry invariant holds in the initial state and is kept
    by the add-sequence, by the remove-sequence (however they end), by
    the destruction of the whole table (which leaves no entry, block,
    open handle or bus object), and by every event the loop dispatches.
    Under the invariant an entry is in the registry if and only if it is
    whole (block allocated, handle open, object id non-zero and
    registered), and every allocated block, every open handle and every
    registered object belongs to an entry of the registry. *)
Theorem registry_invariant_is_preserved P :
  registry_inv initial_state ∧
  (∀ dev s, registry_inv s → registry_inv (final_state (register_chip_object P dev s))) ∧
  (∀ dev s, registry_inv s → registry_inv (final_state (destroy_chip_dev dev s))) ∧
  (∀ s, registry_inv s →
     ∃ s', g_hash_table_destroy s = Ret () s' ∧ registry_inv s' ∧
           chips (ctx s') = ∅ ∧ heap s' = ∅ ∧ open_chips s' = ∅ ∧ bus_objects s' = ∅) ∧
  (∀ e s s', registry_inv s → dispatch P e s = Ret () s' → registry_inv s') ∧
  (∀ s p, registry_inv s →
     ((∃ name, chips (ctx s) !! name = Some p) ↔ entry_whole s p) ∧
     (is_Some (heap s !! p) → entry_whole s p) ∧
     (∀ h, is_Some (open_chips s !! h) →
        ∃ name q c, chips (ctx s) !! name = Some q ∧ heap s !! q = Some c ∧ handle c = Some h) ∧
     (∀ i path, bus_objects s !! i = Some (path, p) →
        ∃ name c, chips (ctx s) !! name = Some p ∧ heap s !! p = Some c ∧ obj_id c = i)).
Proof.
  split; [apply registry_inv_initial|].
  split; [apply register_preserves_inv|].
  split; [apply destroy_chip_dev_preserves_inv|].
  split.
  - intros s I. destruct (hash_table_destroy_clears s I) as (s' & ? & ? & ? & ? & ? & ? & _).
    by exists s'.
  - split.
    { intros e s s' I Hrun. pose proof (sound_dispatch P e s I) as Hs.
      by rewrite Hrun in Hs. }
    intros s p I. repeat split.
    + intros [name Hn]. by apply (inv_entries s I name).
    + intros (c & ? & ? & Hc & _). by apply (inv_heap s I p c).
    + intros [c Hc]. destruct (inv_heap s I p c Hc) as [n Hn]. by apply (inv_entries s I n).
    + intros h [info Hh]. destruct (inv_open s I h info Hh) as (q & c & Hq & Hc).
      destruct (inv_heap s I q c Hq) as [n Hn]. by exists n, q, c.
    + intros i path Hi. destruct (inv_objects s I i path p Hi) as (c & Hc & Hid).
      destruct (inv_heap s I p c Hc) as [n Hn]. by exists n, c.
Qed.

(** C6.  A hotplug notification whose device has no device file leaves
    the whole state as it was, whatever the action: no chip is opened,
    no object is registered or removed, nothing is logged.  This holds
    for the handler and for its delivery by the loop to every connected
    handler. *)
Theorem uevent_without_device_file_is_ignored P action dev s :
  g_udev_device_get_device_file dev = None →
  on_uevent P action dev s = Ret () s ∧
  dispatch P (UEvent action dev) s = Ret () s.
Proof.
  intros H. split; [by apply on_uevent_skips|].
  unfold dispatch, get_state. rewrite run_bind.
  apply foreach_noop. intros _ _. by apply on_uevent_skips.
Qed.

(** C7.  For a chip in a consistent registry, a read of "Name", "Label"
    or "NumLines" returns the name and the label as strings and the line
    count as an unsigned 32-bit value, as the chip handle reports them in
    the state in which the read is made; whatever the chip reports at
    that moment is what the read answers, so nothing is cached.  A read
    of any other property returns NULL.  The only effect of a read is its
    debug record; the [error] argument is never written. *)
Theorem property_reads_are_live sender object interface name p s :
  registry_inv s → chips (ctx s) !! name = Some p →
  ∃ c h info,
    heap s !! p = Some c ∧ handle c = Some h ∧ open_chips s !! h = Some info ∧
    let get property st := on_chip_property_get sender object interface property p st in
    let logged property st := log_event (property_get_msg sender object interface property) st in
    get "Name" s = Ret (Some (VString (info_name info))) (logged "Name" s) ∧
    get "Label" s = Ret (Some (VString (info_label info))) (logged "Label" s) ∧
    get "NumLines" s
      = Ret (Some (VUint32 (info_num_lines info mod 2 ^ 32)%N)) (logged "NumLines" s) ∧
    ((info_num_lines info < 2 ^ 32)%N →
       get "NumLines" s = Ret (Some (VUint32 (info_num_lines info))) (logged "NumLines" s)) ∧
    (∀ property, property ≠ "Name" → property ≠ "Label" → property ≠ "NumLines" →
       get property s = Ret None (logged property s)) ∧
    (∀ property now,
       let s_now := set_open_chips <[h := now]> s in
       get property s_now = Ret (property_value property now) (logged property s_now)).
Proof.
  intros I Hn. destruct (inv_entries s I name p Hn) as (c & h & path & Hp & Hh & [info Ho] & _).
  exists c, h, info. repeat split; try done.
  - by rewrite (property_get_run _ _ _ _ p c h info).
  - by rewrite (property_get_run _ _ _ _ p c h info).
  - by rewrite (property_get_run _ _ _ _ p c h info).
  - intros Hlt. rewrite (property_get_run _ _ _ _ p c h info) by done.
    unfold property_value. simpl. by rewrite N.mod_small.
  - intros property H1 H2 H3. rewrite (property_get_run _ _ _ _ p c h info) by done.
    unfold property_value. by rewrite !decide_False.
  - intros property now. apply (property_get_run _ _ _ _ p c h now); [done..|].
    simpl. apply lookup_insert_eq.
Qed.

(** C8.  Destroying an entry whose object id is zero makes no
    unregistration call and leaves the bus objects alone; destroying one
    whose handle is NULL makes no close call and leaves the open chips
    alone; with neither resource the only effect is that the block is
    freed.  In each case the destruction returns normally. *)
Theorem destroy_chip_object_skips_absent_resources p chip s :
  heap s !! p = Some chip →
  (obj_id chip = 0%N →
     destroy_chip_object p s
     = Ret () (set_heap (delete p) (after_close (handle chip) s))) ∧
  (handle chip = None →
     destroy_chip_object p s
     = Ret () (set_heap (delete p) (after_unregister (obj_id chip) s))) ∧
  (obj_id chip = 0%N → handle chip = None →
     destroy_chip_object p s = Ret () (set_heap (delete p) s)).
Proof.
  intros Hp. rewrite (destroy_chip_object_run p chip s Hp). unfold destroyed.
  repeat split.
  - by intros ->.
  - by intros ->.
  - by intros -> ->.
Qed.

(** C9 as worded does not hold.  With a help option on the command
    line the process exits with status 0 although the main loop never
    ran and no signal was delivered. *)
Lemma help_exits_zero_without_a_signal :
  ¬ exits_zero_only_on_quit_signal friendly help_cmd true [].
Proof.
  intros H. assert (Hz : exit_status (main friendly help_cmd true [] initial_state)
                         = Some 0%Z) by reflexivity.
  apply H in Hz. by apply Exists_nil in Hz.
Qed.

(** C9, as the code has it.  A help option makes the option parser exit
    with status 0 before anything else is done.  Without one, the exit
    status of [main] is 0 exactly when the options and the introspection
    XML were accepted and the main loop returned.  The loop returns only
    after a terminate or interrupt signal was dispatched in its last
    iteration, and no name-lost event was dispatched before it returned;
    and it does return, with status 0 for [main], at the end of the
    first completed iteration that holds a terminate or an interrupt
    signal.  A name-lost event ends the process with [EXIT_FAILURE] in
    each of its three cases (no connection, the connection closed, the
    name lost), also as the exit status of [main]; so does a failure to
    parse the introspection XML.  Every exit status is 0 or
    [EXIT_FAILURE], which is not 0. *)
Theorem exit_status_of_main P cmd xml_ok iterations :
  let o := main P cmd xml_ok iterations initial_state in
  (help_requested cmd = true → o = Halt (Exited 0) initial_state) ∧
  (help_requested cmd = false →
   (exit_status o = Some 0%Z ↔
    parse_ok cmd = true ∧ xml_ok = true ∧
    ∃ s1, g_main_loop_run P iterations (started cmd) = Ret () s1)) ∧
  (∀ s s1, g_main_loop_run P iterations s = Ret () s1 →
     loop_running s1 = false ∧
     ∃ pre it post,
       iterations = (pre ++ it :: post)%list ∧ existsb is_quit_signal it = true ∧
       Forall (λ ready, existsb is_name_lost ready = false) (pre ++ [it])%list) ∧
  (∀ pre ready later s s',
     help_requested cmd = false → parse_ok cmd = true →
     after_iterations P pre (set_loop_running true (started cmd)) = Some s →
     existsb is_quit_signal ready = true →
     g_list_foreach ready (dispatch P) s = Ret () s' →
     g_main_loop_run P (pre ++ ready :: later) (started cmd) = Ret () s' ∧
     exit_status (main P cmd true (pre ++ ready :: later) initial_state) = Some 0%Z) ∧
  (∀ conn name s,
     dispatch P (NameLost conn name) s
     = Halt (Exited EXIT_FAILURE)
         (log_event
            (match conn with
             | None => EvLog LevelCritical "unable to make connection to the bus" []
             | Some c =>
                 if connection_closed P c
                      (log_event (EvLog LevelDebug "DBus name lost: '%s'" [name]) s)
                 then EvLog LevelCritical "connection to the bus closed, dying..." []
                 else EvLog LevelCritical "name '%s' lost on the bus, dying..." [name]
             end)
            (log_event (EvLog LevelDebug "DBus name lost: '%s'" [name]) s))) ∧
  (∀ pre conn name rest later s,
     help_requested cmd = false → parse_ok cmd = true →
     after_iterations P pre (set_loop_running true (started cmd)) = Some s →
     exit_status (main P cmd true (pre ++ (NameLost conn name :: rest) :: later)
                    initial_state)
     = Some EXIT_FAILURE) ∧
  (help_requested cmd = false →
   exit_status (main P cmd false iterations initial_state) = Some EXIT_FAILURE) ∧
  (∀ status, exit_status o = Some status → status = 0%Z ∨ status = EXIT_FAILURE) ∧
  EXIT_FAILURE ≠ 0%Z.
Proof.
  intros o. split; [apply main_help|].
  split; [apply main_returns_iff_loop_returns|].
  split.
  { intros s s1. unfold g_main_loop_run. rewrite run_bind. simpl.
    by apply loop_stops_by_signal. }
  split; [intros pre ready later s s'; apply main_exits_zero_after_quit_signal|].
  split; [intros conn name s; apply on_name_lost_run|].
  split; [intros pre conn name rest later s; apply main_fails_when_the_name_is_lost|].
  split; [apply main_bad_xml|].
  split; [apply main_status_is_success_or_failure|done].
Qed.

(** C10.  The startup enumeration uses the filter of the hotplug handler:
    [is_gpiochip_device] holds exactly for devices with a device file,
    the enumeration callback registers a device only when it holds, the
    whole enumeration is the registration of the listed devices that
    have a device file, and the uevent handler processes an event only
    when it holds. *)
Theorem enumeration_applies_the_hotplug_filter P conn name action dev s :
  is_gpiochip_device dev = bool_decide (has_device_file dev) ∧
  create_chip_list_cb P dev s
  = (if is_gpiochip_device dev then register_chip_object P dev s else Ret () s) ∧
  on_name_acquired P conn name s
  = g_list_foreach (filter has_device_file (udev_gpio_devices P (at_enumeration name s)))
                   (register_chip_object P) (at_enumeration name s) ∧
  on_uevent P action dev s
  = (if is_gpiochip_device dev then
       if decide (action = "add") then
         register_chip_object P dev (log_event (uevent_msg action dev) s)
       else if decide (action = "remove") then
         destroy_chip_dev dev (log_event (uevent_msg action dev) s)
       else
         Ret () (log_event (EvLog LevelWarning "unknown action for uevent: %s" [action])
                   (log_event (uevent_msg action dev) s))
     else Ret () s).
Proof.
  split.
  { unfold is_gpiochip_device. apply bool_decide_ext, not_eq_None_Some. }
  split; [|split].
  - rewrite create_chip_list_cb_cases.
    destruct (g_udev_device_get_device_file dev) eqn:E.
    + by rewrite is_gpiochip_device_true by (rewrite E; eauto).
    + by rewrite is_gpiochip_device_false.
  - apply on_name_acquired_run.
  - rewrite on_uevent_cases.
    destruct (g_udev_device_get_device_file dev) eqn:E.
    + by rewrite is_gpiochip_device_true by (rewrite E; eauto).
    + by rewrite is_gpiochip_device_false.
Qed.

(** ** The claims at concrete inputs *)

(** The two failure paths of the add-sequence, run: the registry, the
    heap, the open chips and the bus objects end as they started. *)
Example add_on_a_machine_without_chips :
  register_chip_object no_chips gpiochip0 initial_state
  = Ret () (mkState (ctx initial_state) ∅ ∅ ∅ 0 false
              [creating_msg gpiochip0; EvChipOpen "gpiochip0" None;
               open_failed_msg gpiochip0]).
Proof. vm_compute. reflexivity. Qed.

Example add_on_a_deaf_bus :
  register_chip_object deaf_bus gpiochip0 initial_state
  = Ret () (mkState (ctx initial_state) ∅ ∅ ∅ 0 false
              [creating_msg gpiochip0; EvChipOpen "gpiochip0" (Some 1%positive);
               EvRegisterObject "/org/gpiod/gpiochip0" 1%positive 0%N;
               EvChipClose 1%positive;
               register_failed_msg (mkGError "Permission denied")]).
Proof. vm_compute. reflexivity. Qed.

(** On the bus that answers as GDBus does, a second add of a registered
    name is refused at the registration, with the error set: the new
    handle is closed again and the entry stays as it was. *)
Example add_of_a_registered_name_on_gdbus :
  register_chip_object gdbus gpiochip0 one_chip
  = Ret () (log_event (register_failed_msg (mkGError "An object is already exported"))
              (after_refusal gpiochip0 one_chip)).
Proof. vm_compute. reflexivity. Qed.

Lemma registry_inv_one_chip : registry_inv one_chip.
Proof. apply register_preserves_inv, registry_inv_initial. Qed.

Lemma remove_sequence_order_witness :
  registry_inv one_chip ∧
  ∃ s', destroy_chip_dev gpiochip0 one_chip = Ret () s' ∧
        trace s' = (trace one_chip ++
                    [removing_msg gpiochip0; EvChipClose 1%positive;
                     EvUnregisterObject 1%N])%list.
Proof.
  split; [exact registry_inv_one_chip|].
  assert (Hk : chips (ctx one_chip) !! g_udev_device_get_name gpiochip0 = Some 1%positive)
    by (vm_compute; reflexivity).
  assert (Hp : heap one_chip !! 1%positive = Some (mkChipCtx (Some 1%positive) 1%N None))
    by (vm_compute; reflexivity).
  destruct (remove_sequence_order gpiochip0 one_chip 1%positive
              (mkChipCtx (Some 1%positive) 1%N None) 1%positive
              registry_inv_one_chip Hk Hp eq_refl) as (s' & Hrun & _ & Ht & _).
  exists s'. split; [exact Hrun|exact Ht].
Defined.

Lemma add_faults_on_a_refusal_without_error_witness :
  chips (ctx initial_state) !! "gpio-chip0" = None ∧
  g_variant_is_object_path "/org/gpiod/gpio-chip0" = false ∧
  register_chip_object gdbus gpio_chip0 initial_state
  = Halt InvalidAccess
      (mkState (ctx initial_state) ∅ ∅ ∅ 0 false
         [creating_msg gpio_chip0; EvChipOpen "gpio-chip0" (Some 1%positive);
          EvRegisterObject "/org/gpiod/gpio-chip0" 1%positive 0%N;
          EvChipClose 1%positive]).
Proof.
  split; [reflexivity|]. split; [reflexivity|].
  exact (proj1 (add_faults_on_a_refusal_without_error gdbus gpio_chip0 initial_state
                  eq_refl)).
Defined.

Lemma gdbus_refuses_exported : refuses_exported gdbus.
Proof.
  intros path st (i & q & Hi). simpl. apply andb_false_iff. right.
  apply bool_decide_eq_false. intros Hn. by apply (object_at_None path st i q Hn).
Qed.

Lemma registry_assertions_witness :
  registry_inv one_chip ∧
  (∃ s', (ret ← g_hash_table_insert "gpiochip0" 2%positive; g_assert_true ret) one_chip
         = Halt AssertionFailed s') ∧
  (∃ s', destroy_chip_dev gpiochip1 one_chip = Halt AssertionFailed s') ∧
  ¬ (∃ s', register_chip_object gdbus gpiochip0 one_chip = Halt AssertionFailed s').
Proof.
  split; [exact registry_inv_one_chip|]. split; [|split].
  - destruct (registry_assertions gdbus gpiochip0 one_chip registry_inv_one_chip)
      as (H & _).
    exact (H 2%positive).
  - destruct (registry_assertions gdbus gpiochip1 one_chip registry_inv_one_chip)
      as (_ & H & _).
    destruct H as (s' & H & _). exists s'. exact H.
  - destruct (registry_assertions gdbus gpiochip0 one_chip registry_inv_one_chip)
      as (_ & _ & _ & _ & H).
    apply H.
    + exact entries_bound_one_chip.
    + exact gdbus_refuses_exported.
    + exists 1%positive. vm_compute. reflexivity.
Defined.

Lemma registry_invariant_is_preserved_witness :
  registry_inv (final_state (destroy_chip_dev gpiochip0 one_chip)).
Proof.
  destruct (registry_invariant_is_preserved friendly) as (I0 & Hadd & Hdel & _).
  apply Hdel. apply (Hadd gpiochip0 initial_state). exact I0.
Defined.

Lemma uevent_without_device_file_is_ignored_witness :
  g_udev_device_get_device_file gpiochip0_sysfs = None ∧
  on_uevent friendly "remove" gpiochip0_sysfs one_chip = Ret () one_chip.
Proof.
  split; [reflexivity|].
  apply (uevent_without_device_file_is_ignored friendly "remove" gpiochip0_sysfs one_chip).
  reflexivity.
Defined.

Lemma property_reads_are_live_witness :
  registry_inv one_chip ∧
  chips (ctx one_chip) !! "gpiochip0" = Some 1%positive ∧
  ∃ v, on_chip_property_get ":1.7" "/org/gpiod/gpiochip0" "org.gpiod.Chip" "NumLines"
         1%positive one_chip
       = Ret (Some (VUint32 v))
             (log_event (property_get_msg ":1.7" "/org/gpiod/gpiochip0" "org.gpiod.Chip"
                                          "NumLines") one_chip).
Proof.
  split; [exact registry_inv_one_chip|].
  assert (Hk : chips (ctx one_chip) !! "gpiochip0" = Some 1%positive)
    by (vm_compute; reflexivity).
  split; [exact Hk|].
  destruct (property_reads_are_live ":1.7" "/org/gpiod/gpiochip0" "org.gpiod.Chip"
              "gpiochip0" 1%positive one_chip registry_inv_one_chip Hk)
    as (c & h & info & _ & _ & _ & _ & _ & Hnum & _).
  exists (info_num_lines info mod 2 ^ 32)%N. exact Hnum.
Defined.

Lemma destroy_chip_object_skips_absent_resources_witness :
  heap half_built !! 1%positive = Some (mkChipCtx None 0%N None) ∧
  destroy_chip_object 1%positive half_built
  = Ret () (set_heap (delete 1%positive) half_built).
Proof.
  assert (Hp : heap half_built !! 1%positive = Some (mkChipCtx None 0%N None))
    by (vm_compute; reflexivity).
  split; [exact Hp|].
  destruct (destroy_chip_object_skips_absent_resources 1%positive
              (mkChipCtx None 0%N None) half_built Hp) as (_ & _ & H).
  apply H; reflexivity.
Defined.

Lemma exit_status_of_main_witness :
  exit_status (main gdbus help_cmd true until_sigterm initial_state) = Some 0%Z ∧
  exit_status (main gdbus plain_cmd true until_sigterm initial_state) = Some 0%Z ∧
  exit_status (main gdbus plain_cmd true
                 (until_active ++ [SIGHUP; SIGINT] :: [[UEvent "remove" gpiochip1]])
                 initial_state) = Some 0%Z ∧
  exit_status (main gdbus plain_cmd true
                 (until_active ++ [NameLost (Some 1%positive) "org.gpiod"] :: [[SIGTERM]])
                 initial_state) = Some EXIT_FAILURE.
Proof.
  destruct (exit_status_of_main gdbus help_cmd true until_sigterm) as (Hhelp & _).
  destruct (exit_status_of_main gdbus plain_cmd true until_sigterm)
    as (_ & Hiff & _ & Hquit & _ & Hlost & _).
  assert (Hpre : after_iterations gdbus until_active
                   (set_loop_running true (started plain_cmd))
                 = Some (final_state (g_main_loop_run gdbus until_active
                                        (started plain_cmd))))
    by (vm_compute; reflexivity).
  split; [by rewrite (Hhelp eq_refl)|]. split; [|split].
  - apply (Hiff eq_refl). split; [reflexivity|]. split; [reflexivity|].
    eexists. vm_compute. reflexivity.
  - refine (proj2 (Hquit until_active [SIGHUP; SIGINT] [[UEvent "remove" gpiochip1]]
                     _ _ eq_refl eq_refl Hpre eq_refl _)).
    vm_compute. reflexivity.
  - exact (Hlost until_active (Some 1%positive) "org.gpiod" [] [[SIGTERM]] _
             eq_refl eq_refl Hpre).
Defined.

(** ** Further properties of the daemon *)

Lemma has_flag_testbit lvl k :
  (0 ≤ k)%Z → has_flag lvl (Z.shiftl 1 k) = Z.testbit lvl k.
Proof.
  intros Hk. unfold has_flag. rewrite Z.shiftl_1_l.
  destruct (Z.testbit lvl k) eqn:Hb.
  - apply negb_true_iff, Z.eqb_neq. intros H0.
    assert (Z.testbit (Z.land lvl (2 ^ k)) k = true) as Hbit.
    { by rewrite Z.land_spec, Hb, Z.pow2_bits_true. }
    by rewrite H0, Z.bits_0 in Hbit.
  - apply negb_false_iff, Z.eqb_eq, Z.bits_inj'. intros n Hn.
    rewrite Z.land_spec, Z.bits_0.
    destruct (decide (k = n)) as [<-|Hne].
    + by rewrite Hb.
    + by rewrite Z.pow2_bits_false, andb_false_r.
Qed.

Lemma log_level_to_priority_bits lvl :
  log_level_to_priority lvl
  = if Z.testbit lvl 2 then "0"
    else if Z.testbit lvl 3 then "3"
    else if Z.testbit lvl 4 then "4"
    else if Z.testbit lvl 5 then "5"
    else if Z.testbit lvl 6 then "6"
    else if Z.testbit lvl 7 then "7"
    else "5".
Proof.
  unfold log_level_to_priority, G_LOG_LEVEL_ERROR, G_LOG_LEVEL_CRITICAL,
    G_LOG_LEVEL_WARNING, G_LOG_LEVEL_MESSAGE, G_LOG_LEVEL_INFO, G_LOG_LEVEL_DEBUG.
  by rewrite !has_flag_testbit by lia.
Qed.

Lemma log_write_message_skips pre rest :
  Forall (λ f, key f ≠ "MESSAGE") pre →
  log_write_message (pre ++ rest) = log_write_message rest.
Proof.
  induction 1 as [|f pre Hf _ IH]; [done|].
  simpl. by rewrite (g_strcmp0_ne _ _ Hf).
Qed.

Lemma with_new_events_nil s : with_new_events [] s = s.
Proof. destruct s. unfold with_new_events. simpl. by rewrite app_nil_r. Qed.

Lemma with_new_events_app l1 l2 s :
  with_new_events l2 (with_new_events l1 s) = with_new_events (l1 ++ l2) s.
Proof. unfold with_new_events. simpl. by rewrite app_assoc. Qed.

Lemma foreach_sighup P ready s :
  Forall (λ e, e = SIGHUP) ready →
  g_list_foreach ready (dispatch P) s
  = Ret () (with_new_events (replicate (length ready) sighup_msg) s).
Proof.
  intros H. revert s. induction H as [|e ready -> _ IH]; intros s.
  - by rewrite with_new_events_nil.
  - simpl. rewrite run_bind. simpl. rewrite IH. f_equal.
    apply state_eq; simpl; try done. by rewrite <- app_assoc.
Qed.

Lemma same_resources_with_new_events new s : same_resources s (with_new_events new s).
Proof. done. Qed.

Lemma foreach_unknown_action P action dev n s :
  is_Some (g_udev_device_get_device_file dev) → action ≠ "add" → action ≠ "remove" →
  g_list_foreach (replicate n ()) (λ _, on_uevent P action dev) s
  = Ret () (with_new_events
              (concat (replicate n [uevent_msg action dev; unknown_action_msg action])) s).
Proof.
  intros [f Hf] Ha Hr. revert s. induction n as [|n IH]; intros s.
  - simpl. by rewrite with_new_events_nil.
  - simpl. rewrite run_bind, on_uevent_cases, Hf.
    rewrite !decide_False by done. rewrite IH. f_equal.
    apply state_eq; simpl; try done. by rewrite <- !app_assoc.
Qed.

Lemma register_absent_step P dev s :
  chips (ctx s) !! g_udev_device_get_name dev = None →
  (∃ s', register_chip_object P dev s = Ret () s' ∧
         (chips (ctx s') = chips (ctx s) ∨
          chips (ctx s') = <[g_udev_device_get_name dev := new_block s]> (chips (ctx s)))) ∨
  (∃ s', register_chip_object P dev s = Halt InvalidAccess s' ∧
         chips (ctx s') = chips (ctx s) ∧ refused_without_error P dev s).
Proof.
  intros Hk.
  destruct (chip_probe P (g_udev_device_get_name dev) (at_open dev s)) as [info|] eqn:Hprobe.
  2:{ rewrite (register_open_fails P dev s Hprobe). left. eexists. split; [done|]. by left. }
  destruct (bus_accepts P (obj_path dev) (at_register dev info s)) eqn:Hbus.
  - rewrite (register_reaches_insert P dev s info Hprobe Hbus).
    rewrite (insert_step_new _ _ (at_insert dev info s)) by done.
    left. eexists. split; [done|]. by right.
  - rewrite (register_bus_refuses P dev s info Hprobe Hbus).
    destruct (bus_error P (obj_path dev) (at_register dev info s)) eqn:Herr.
    + left. eexists. split; [done|]. by left.
    + right. eexists. split; [done|]. split; [done|]. exists info. done.
Qed.

Lemma foreach_register_distinct P devs s :
  NoDup (device_names devs) →
  Forall (λ d, chips (ctx s) !! g_udev_device_get_name d = None) devs →
  ((∃ s', g_list_foreach devs (register_chip_object P) s = Ret () s') ∨
   (∃ s', g_list_foreach devs (register_chip_object P) s = Halt InvalidAccess s')) ∧
  dom (chips (ctx s))
    ⊆ dom (chips (ctx (final_state (g_list_foreach devs (register_chip_object P) s)))) ∧
  dom (chips (ctx (final_state (g_list_foreach devs (register_chip_object P) s))))
    ⊆ dom (chips (ctx s)) ∪ list_to_set (device_names devs) ∧
  (refusals_have_errors P devs →
   ∃ s', g_list_foreach devs (register_chip_object P) s = Ret () s').
Proof.
  revert s. induction devs as [|d devs IH]; intros s Hnd Habs.
  - simpl. split; [left; eauto|]. split; [done|]. split; [apply union_subseteq_l|eauto].
  - simpl in Hnd. apply NoDup_cons in Hnd as [Hd Hnd].
    apply Forall_cons in Habs as [Hk Habs].
    simpl. rewrite run_bind.
    destruct (register_absent_step P d s Hk)
      as [(s1 & Hrun & Hc)|(s1 & Hrun & Hc & info & Hprobe & Hbus & Herr)]; rewrite Hrun.
    + assert (Forall (λ d', chips (ctx s1) !! g_udev_device_get_name d' = None) devs)
        as Habs1.
      { apply Forall_forall. intros d' Hd'.
        pose proof (proj1 (Forall_forall _ _) Habs d' Hd') as Hk'.
        destruct Hc as [-> | ->]; [done|].
        rewrite lookup_insert_ne; [done|]. intros E. apply Hd. rewrite E.
        unfold device_names. by apply list_elem_of_fmap_2. }
      destruct (IH s1 Hnd Habs1) as (Hends & Hsub & Hsup & Hall).
      assert (dom (chips (ctx s)) ⊆ dom (chips (ctx s1)) ∧
              dom (chips (ctx s1)) ⊆ dom (chips (ctx s)) ∪ {[g_udev_device_get_name d]})
        as [H1 H2].
      { destruct Hc as [-> | ->]; [split; [done|apply union_subseteq_l]|].
        rewrite dom_insert_L. split; [apply union_subseteq_r|by rewrite (comm_L (∪))]. }
      split; [done|].
      split; [by transitivity (dom (chips (ctx s1)))|]. split.
      * transitivity (dom (chips (ctx s1)) ∪ list_to_set (device_names devs)); [done|].
        rewrite (assoc_L (∪)). by apply union_mono_r.
      * intros HP. apply Hall. intros dev st Hin. apply HP. by right.
    + simpl. split; [right; eauto|]. rewrite Hc.
      split; [done|]. split; [apply union_subseteq_l|].
      intros HP. destruct (HP d (at_register d info s)) as [err Hsome]; [by left|done|].
      congruence.
Qed.

Lemma unexported_path_resolves_to_nothing path s :
  ¬ exported path s → object_at path s = None.
Proof.
  intros Hn. destruct (object_at path s) as [q|] eqn:E; [|done].
  destruct Hn. apply object_at_Some in E as [i Hi]. by exists i, q.
Qed.

Lemma register_absent_accepted P dev s :
  registry_inv s → entries_bound s →
  chips (ctx s) !! g_udev_device_get_name dev = None →
  is_Some (chip_probe P (g_udev_device_get_name dev) (at_open dev s)) →
  (∀ st, ¬ exported (obj_path dev) st → bus_accepts P (obj_path dev) st = true) →
  ∃ s', register_chip_object P dev s = Ret () s' ∧
        chips (ctx s') = <[g_udev_device_get_name dev := new_block s]> (chips (ctx s)) ∧
        registry_inv s' ∧ entries_bound s'.
Proof.
  intros I B Hk [info Hprobe] Hacc.
  assert (Hbus : bus_accepts P (obj_path dev) (at_register dev info s) = true).
  { apply Hacc. intros (i & q & Hi).
    assert (exported ("/org/gpiod/" +:+ g_udev_device_get_name dev) s) as He
      by (by exists i, q).
    apply (exported_iff_registered s _ I B) in He as [p Hp]. congruence. }
  pose proof (register_preserves_inv P dev s I) as I'.
  pose proof (register_keeps_bound P dev s I B) as B'.
  rewrite (register_reaches_insert P dev s info Hprobe Hbus) in *.
  rewrite (insert_step_new _ _ (at_insert dev info s)) in * by done.
  eexists. split; [done|]. split; [done|]. split; [exact I'|exact B'].
Qed.

Lemma foreach_register_all P devs s :
  registry_inv s → entries_bound s →
  chips_open P devs → accepts_unexported P devs →
  NoDup (device_names devs) →
  Forall (λ d, chips (ctx s) !! g_udev_device_get_name d = None) devs →
  ∃ s', g_list_foreach devs (register_chip_object P) s = Ret () s' ∧
        dom (chips (ctx s')) = dom (chips (ctx s)) ∪ list_to_set (device_names devs).
Proof.
  revert s. induction devs as [|d devs IH]; intros s I B Ho Ha Hnd Habs.
  - exists s. split; [done|]. simpl. by rewrite union_empty_r_L.
  - simpl in Hnd. apply NoDup_cons in Hnd as [Hd Hnd].
    apply Forall_cons in Habs as [Hk Habs].
    destruct (register_absent_accepted P d s I B Hk) as (s1 & Hrun & Hc & I1 & B1).
    { apply Ho. by left. }
    { intros st. apply Ha. by left. }
    assert (Forall (λ d', chips (ctx s1) !! g_udev_device_get_name d' = None) devs) as Habs1.
    { apply Forall_forall. intros d' Hd'.
      pose proof (proj1 (Forall_forall _ _) Habs d' Hd') as Hk'.
      rewrite Hc, lookup_insert_ne; [done|]. intros E. apply Hd. rewrite E.
      unfold device_names. by apply list_elem_of_fmap_2. }
    destruct (IH s1 I1 B1) as (s' & Hrun' & Hdom); [..|done|done|].
    { intros dev st Hin. apply Ho. by right. }
    { intros dev st Hin. apply Ha. by right. }
    exists s'. simpl. rewrite run_bind, Hrun. split; [done|].
    rewrite Hdom, Hc, dom_insert_L.
    by rewrite (comm_L (∪) {[_]}), (assoc_L (∪)).
Qed.

Lemma dispatch_keeps_unexposed P e s :
  is_name_acquired e = false → unexposed s → unexposed (final_state (dispatch P e s)).
Proof.
  intros He (Hh & Hc & Hp & Ho & Hb). destruct e; try done.
  - simpl. by rewrite on_name_lost_run.
  - simpl. unfold get_state. rewrite run_bind, Hh. done.
  - unfold dispatch, get_state. rewrite run_bind.
    unfold object_at. rewrite Hb, map_to_list_empty. done.
Qed.

Lemma foreach_keeps_unexposed P ready s :
  Forall (λ e, is_name_acquired e = false) ready → unexposed s →
  unexposed (final_state (g_list_foreach ready (dispatch P) s)).
Proof.
  intros H. revert s. induction H as [|e ready He _ IH]; intros s Hs; [done|].
  simpl. rewrite run_bind. pose proof (dispatch_keeps_unexposed P e s He Hs) as H1.
  destruct (dispatch P e s) as [[] s1|]; [by apply IH|done].
Qed.

Lemma iterate_keeps_unexposed P iterations s :
  Forall (Forall (λ e, is_name_acquired e = false)) iterations → unexposed s →
  unexposed (final_state (main_loop_iterate P iterations s)).
Proof.
  intros H. revert s. induction H as [|ready later Hr _ IH]; intros s Hs; [done|].
  simpl. rewrite run_bind. pose proof (foreach_keeps_unexposed P ready s Hr Hs) as H1.
  destruct (g_list_foreach ready (dispatch P) s) as [[] s1|]; [|done].
  unfold get_state. rewrite run_bind. destruct (loop_running s1); [by apply IH|done].
Qed.

Lemma register_keeps_bus_id P dev s :
  registry_inv s → bus_id (ctx (final_state (register_chip_object P dev s))) = bus_id (ctx s).
Proof.
  intros I.
  destruct (chip_probe P (g_udev_device_get_name dev) (at_open dev s)) as [info|] eqn:Hprobe.
  2:{ by rewrite (register_open_fails P dev s Hprobe). }
  destruct (bus_accepts P (obj_path dev) (at_register dev info s)) eqn:Hbus.
  2:{ rewrite (register_bus_refuses P dev s info Hprobe Hbus).
      by destruct (bus_error P (obj_path dev) (at_register dev info s)). }
  rewrite (register_reaches_insert P dev s info Hprobe Hbus).
  destruct (chips (ctx s) !! g_udev_device_get_name dev) as [old|] eqn:Hk.
  - destruct (inv_entries s I _ old Hk) as (c & h & path & Hp & Hh & _ & Hz & _).
    assert (old ≠ new_block s) as Hne.
    { intros ->. by rewrite new_block_fresh in Hp. }
    rewrite (insert_step_duplicate _ _ old c); [|done|simpl; by rewrite lookup_insert_ne].
    by rewrite (destroyed_whole old c h).
  - by rewrite (insert_step_new _ _ (at_insert dev info s)).
Qed.

Lemma destroy_chip_dev_keeps_bus_id dev s :
  registry_inv s → bus_id (ctx (final_state (destroy_chip_dev dev s))) = bus_id (ctx s).
Proof.
  intros I. destruct (chips (ctx s) !! g_udev_device_get_name dev) as [p|] eqn:Hk.
  - destruct (inv_entries s I _ p Hk) as (c & h & path & Hp & Hh & _ & Hz & _).
    rewrite (destroy_chip_dev_present dev p c s Hk Hp).
    by rewrite (destroyed_whole p c h).
  - by rewrite (destroy_chip_dev_absent dev s Hk).
Qed.

Lemma foreach_keeps_bus_id {A} (l : list A) (f : A → M unit) s :
  (∀ x s0, registry_inv s0 → sound (f x s0)) →
  (∀ x s0, registry_inv s0 → bus_id (ctx (final_state (f x s0))) = bus_id (ctx s0)) →
  registry_inv s →
  bus_id (ctx (final_state (g_list_foreach l f s))) = bus_id (ctx s).
Proof.
  intros Hs Hf. revert s. induction l as [|x l IH]; intros s I; [done|].
  simpl. rewrite run_bind. specialize (Hs x s I). specialize (Hf x s I).
  destruct (f x s) as [[] s1|]; [|done].
  simpl in *. by rewrite IH.
Qed.

Lemma on_uevent_keeps_bus_id P action dev s :
  registry_inv s → bus_id (ctx (final_state (on_uevent P action dev s))) = bus_id (ctx s).
Proof.
  intros I. rewrite on_uevent_cases.
  destruct (g_udev_device_get_device_file dev); [|done].
  assert (registry_inv (log_event (uevent_msg action dev) s)) by (by apply (registry_inv_frame s)).
  repeat case_decide.
  - by rewrite register_keeps_bus_id.
  - by rewrite destroy_chip_dev_keeps_bus_id.
  - done.
Qed.

Lemma dispatch_keeps_bus_id P e s :
  registry_inv s → bus_id (ctx (final_state (dispatch P e s))) = bus_id (ctx s).
Proof.
  intros I. destruct e; try done.
  - simpl. rewrite on_name_acquired_run.
    rewrite foreach_keeps_bus_id; [done|..].
    + intros d s0. apply sound_register.
    + intros d s0. apply register_keeps_bus_id.
    + by apply (registry_inv_frame s).
  - simpl. by rewrite on_name_lost_run.
  - simpl. unfold get_state. rewrite run_bind.
    apply foreach_keeps_bus_id; [..|done].
    + intros _ s0. apply sound_on_uevent.
    + intros _ s0. apply on_uevent_keeps_bus_id.
  - destruct (property_dispatch_run P sender object interface property s I)
      as (s' & Hrun & Hc & _).
    rewrite Hrun. simpl. by rewrite Hc.
Qed.

Lemma iterate_keeps_bus_id P iterations s :
  registry_inv s →
  bus_id (ctx (final_state (main_loop_iterate P iterations s))) = bus_id (ctx s).
Proof.
  revert s. induction iterations as [|ready later IH]; intros s I; [done|].
  simpl. rewrite run_bind.
  pose proof (foreach_keeps_bus_id ready (dispatch P) s (sound_dispatch P)
                (dispatch_keeps_bus_id P) I) as Hk.
  pose proof (sound_foreach ready (dispatch P) s (sound_dispatch P) I) as Hs.
  destruct (g_list_foreach ready (dispatch P) s) as [[] s1|]; [|done].
  unfold get_state. rewrite run_bind. simpl in *.
  destruct (loop_running s1); [|done]. by rewrite IH.
Qed.

Lemma insert_step_on_present_key_never_returns key value old s s' :
  chips (ctx s) !! key = Some old →
  (ret ← g_hash_table_insert key value; g_assert_true ret) s ≠ Ret () s'.
Proof.
  intros Hk. unfold g_hash_table_insert, get_state. mrun. rewrite Hk. rewrite run_bind.
  destruct (destroy_chip_object old _) as [[] s1|]; done.
Qed.

Lemma foreach_keeps_bound {A} (l : list A) (f : A → M unit) s :
  (∀ x s0, registry_inv s0 → sound (f x s0)) →
  (∀ x s0, registry_inv s0 → entries_bound s0 → entries_bound (final_state (f x s0))) →
  registry_inv s → entries_bound s →
  entries_bound (final_state (g_list_foreach l f s)).
Proof.
  intros Hs Hf. revert s. induction l as [|x l IH]; intros s I B; [done|].
  simpl. rewrite run_bind. specialize (Hs x s I). specialize (Hf x s I B).
  destruct (f x s) as [[] s1|]; [|done].
  simpl in *. by apply IH.
Qed.

Lemma on_uevent_keeps_bound P action dev s :
  registry_inv s → entries_bound s → entries_bound (final_state (on_uevent P action dev s)).
Proof.
  intros I B. rewrite on_uevent_cases.
  destruct (g_udev_device_get_device_file dev); [|done].
  assert (registry_inv (log_event (uevent_msg action dev) s)) by (by apply (registry_inv_frame s)).
  assert (entries_bound (log_event (uevent_msg action dev) s)) by (by apply (entries_bound_frame s)).
  repeat case_decide.
  - by apply register_keeps_bound.
  - by apply destroy_chip_dev_keeps_bound.
  - simpl. by apply (entries_bound_frame s).
Qed.

Lemma dispatch_keeps_bound P e s :
  is_bus_acquired e = false → registry_inv s → entries_bound s →
  entries_bound (final_state (dispatch P e s)).
Proof.
  intros He I B. destruct e; try done.
  - simpl. rewrite on_name_acquired_run. apply foreach_keeps_bound.
    + intros d s0. apply sound_register.
    + intros d s0. apply register_keeps_bound.
    + by apply (registry_inv_frame s).
    + by apply (entries_bound_frame s).
  - simpl. rewrite on_name_lost_run. simpl. by apply (entries_bound_frame s).
  - simpl. unfold get_state. rewrite run_bind. apply foreach_keeps_bound; [..|done|done].
    + intros _ s0. apply sound_on_uevent.
    + intros _ s0. apply on_uevent_keeps_bound.
  - destruct (property_dispatch_run P sender object interface property s I)
      as (s' & Hrun & Hc & Hh & _ & Hb & _).
    rewrite Hrun. simpl. by apply (entries_bound_frame s).
Qed.

Lemma on_bus_acquired_keeps_bound conn name s :
  chips (ctx s) = ∅ → entries_bound (final_state (on_bus_acquired conn name s)).
Proof. intros Hc n p c. simpl. by rewrite Hc, lookup_empty. Qed.

Lemma sighup_only_loop P iterations s :
  Forall (Forall (λ e, e = SIGHUP)) iterations → loop_running s = true →
  main_loop_iterate P iterations s
  = Halt LoopIdle
      (with_new_events (replicate (length (concat iterations)) sighup_msg) s).
Proof.
  intros H. revert s. induction H as [|ready later Hr _ IH]; intros s Hs.
  - simpl. by rewrite with_new_events_nil.
  - simpl. rewrite run_bind, (foreach_sighup P ready s Hr).
    unfold get_state. rewrite run_bind. simpl. rewrite Hs.
    rewrite IH by done. rewrite with_new_events_app.
    by rewrite length_app, replicate_add.
Qed.

(** ** The further properties *)

(** X1.  The syslog priority of a log level depends only on the most
    severe level bit that is set: the recursion and fatal flags do not
    change it, and neither does setting any bit above a level bit that
    is already set.  With no level bit set the priority is "5". *)
Theorem log_priority_is_that_of_the_most_severe_level lvl :
  log_level_to_priority (Z.lor lvl G_LOG_FLAG_RECURSION) = log_level_to_priority lvl ∧
  log_level_to_priority (Z.lor lvl G_LOG_FLAG_FATAL) = log_level_to_priority lvl ∧
  (∀ k j, (2 ≤ k ≤ 7)%Z → (k < j)%Z → Z.testbit lvl k = true →
     log_level_to_priority (Z.lor lvl (Z.shiftl 1 j)) = log_level_to_priority lvl) ∧
  ((∀ k, (2 ≤ k ≤ 7)%Z → Z.testbit lvl k = false) → log_level_to_priority lvl = "5").
Proof.
  rewrite !log_level_to_priority_bits.
  unfold G_LOG_FLAG_RECURSION, G_LOG_FLAG_FATAL.
  rewrite !Z.lor_spec, !Z.shiftl_1_l.
  rewrite !(Z.pow2_bits_false 0), !(Z.pow2_bits_false 1), !orb_false_r by lia.
  split; [done|]. split; [done|]. split.
  - intros k j Hk Hj Hb. rewrite !log_level_to_priority_bits.
    rewrite !Z.lor_spec, !Z.shiftl_1_l.
    assert (k = 2 ∨ k = 3 ∨ k = 4 ∨ k = 5 ∨ k = 6 ∨ k = 7)%Z as Hcases by lia.
    destruct Hcases as [-> | [-> | [-> | [-> | [-> | ->] ] ] ] ]; rewrite Hb;
      repeat (match goal with
              | |- context [Z.testbit (2 ^ j) ?n] =>
                  rewrite (Z.pow2_bits_false j n) by lia
              end);
      rewrite ?orb_false_r, ?orb_true_l; done.
  - intros H. by rewrite !H by lia.
Qed.

(** X2.  When the first field whose key is MESSAGE has a value, the log
    writer appends "<priority>message" and a newline to standard error
    and reports the record as handled, whatever fields follow; when that
    field's value is NULL it writes nothing and reports the record as
    unhandled, even if a later MESSAGE field has a value. *)
Theorem log_write_prints_the_first_message lvl pre field post err :
  Forall (λ f, key f ≠ "MESSAGE") pre → key field = "MESSAGE" →
  log_write lvl (pre ++ field :: post) err
  = match value field with
    | Some msg =>
        (G_LOG_WRITER_HANDLED,
         err +:+ "<" +:+ log_level_to_priority lvl +:+ ">" +:+ msg +:+ newline)
    | None => (G_LOG_WRITER_UNHANDLED, err)
    end.
Proof.
  intros Hpre Hkey. unfold log_write. rewrite (log_write_message_skips pre _ Hpre).
  simpl. rewrite Hkey, (proj2 (g_strcmp0_eq _ _) eq_refl). by destruct (value field).
Qed.

(** X3.  A record without a MESSAGE field, in particular one without
    any field, is reported as unhandled and nothing is written. *)
Theorem log_write_without_message_is_unhandled lvl fields err :
  Forall (λ f, key f ≠ "MESSAGE") fields →
  log_write lvl fields err = (G_LOG_WRITER_UNHANDLED, err).
Proof.
  intros H. unfold log_write.
  rewrite <- (app_nil_r fields), (log_write_message_skips fields [] H). done.
Qed.

(** X4.  A hangup signal is only logged: its handler keeps the source
    installed, and a loop that receives nothing but hangup signals
    keeps waiting, with the state changed by one debug record per
    signal and by nothing else. *)
Theorem hangup_is_ignored P iterations s :
  Forall (Forall (λ e, e = SIGHUP)) iterations → loop_running s = true →
  on_sighup s = Ret G_SOURCE_CONTINUE (with_new_events [sighup_msg] s) ∧
  main_loop_iterate P iterations s
  = Halt LoopIdle
      (with_new_events (replicate (length (concat iterations)) sighup_msg) s).
Proof. intros H Hs. split; [done|by apply sighup_only_loop]. Qed.

(** X5.  When an iteration that contains a terminate or interrupt
    signal runs to completion, the loop returns at the end of that
    iteration with the running flag cleared: the other events of the
    iteration have been dispatched, the later iterations are not. *)
Theorem quit_signal_stops_the_loop_after_its_iteration P ready later s s' :
  existsb is_quit_signal ready = true →
  g_list_foreach ready (dispatch P) s = Ret () s' →
  main_loop_iterate P (ready :: later) s = Ret () s' ∧ loop_running s' = false.
Proof.
  intros Hq Hrun. pose proof (foreach_with_quit_signal_stops P ready s s' Hq Hrun) as Hs.
  split; [|done]. simpl. rewrite run_bind, Hrun. unfold get_state. rewrite run_bind.
  by rewrite Hs.
Qed.

(** X6.  A uevent for a character device whose action is neither "add"
    nor "remove" is not fatal and touches nothing: every connected
    handler logs its debug record and a warning, and the context, the
    heap, the open chips and the bus objects stay as they were. *)
Theorem unknown_uevent_action_only_warns P action dev s :
  is_Some (g_udev_device_get_device_file dev) → action ≠ "add" → action ≠ "remove" →
  dispatch P (UEvent action dev) s
  = Ret () (with_new_events
              (concat (replicate (uevent_handlers s)
                         [uevent_msg action dev; unknown_action_msg action])) s).
Proof.
  intros Hf Ha Hr. unfold dispatch, get_state. rewrite run_bind.
  by apply foreach_unknown_action.
Qed.

(** X7.  Adding a device that was not registered and then removing it
    gives back the registry, the heap, the open chips and the bus
    objects of the start; what remains is the trace of the six calls,
    with the handle and the object id of the add being the ones the
    removal closes and unregisters. *)
Theorem remove_undoes_add P dev s info :
  let name := g_udev_device_get_name dev in
  chips (ctx s) !! name = None →
  chip_probe P name (at_open dev s) = Some info →
  bus_accepts P (obj_path dev) (at_register dev info s) = true →
  ∃ s1 s2,
    register_chip_object P dev s = Ret () s1 ∧
    chips (ctx s1) !! name = Some (new_block s) ∧
    destroy_chip_dev dev s1 = Ret () s2 ∧
    same_resources s s2 ∧
    trace s2 = (trace s ++
                [creating_msg dev; EvChipOpen name (Some (new_handle s));
                 EvRegisterObject (obj_path dev) (new_block s) (new_obj_id s);
                 removing_msg dev; EvChipClose (new_handle s);
                 EvUnregisterObject (new_obj_id s)])%list.
Proof.
  intros name Hk Hprobe Hbus.
  destruct (new_obj_id_fresh s) as [Hi Hnz].
  rewrite (register_reaches_insert P dev s info Hprobe Hbus).
  rewrite (insert_step_new _ _ (at_insert dev info s)) by done.
  eexists. eexists. split; [done|].
  split. { simpl. apply lookup_insert_eq. }
  rewrite (destroy_chip_dev_present dev (new_block s)
             (mkChipCtx (Some (new_handle s)) (new_obj_id s) (bus (ctx s))));
    [|simpl; apply lookup_insert_eq|simpl; apply lookup_insert_eq].
  rewrite (destroyed_whole _ _ (new_handle s)) by done.
  split; [done|]. split.
  - repeat split; simpl.
    + destruct (ctx s) as [b i c x]. unfold set_chips. simpl. f_equal.
      simpl in Hk. by apply delete_insert_id.
    + apply delete_insert_id, new_block_fresh.
    + apply delete_insert_id, new_handle_fresh.
    + by apply delete_insert_id.
  - simpl. by rewrite <- !app_assoc.
Qed.

(** X8.  If the devices udev lists with a device file have distinct
    names, none of them registered yet, the startup enumeration never
    fails an assertion, whatever opens and registrations fail: it
    returns, or it ends in the read of the error that a refused
    registration left unset.  Either way no entry is lost and only
    listed names are added.  It returns whenever the bus sets the error
    each time it refuses the object of a listed device. *)
Theorem enumeration_of_distinct_devices_never_aborts P conn name s :
  NoDup (device_names (enumerated P name s)) →
  Forall (λ d, chips (ctx s) !! g_udev_device_get_name d = None) (enumerated P name s) →
  let o := on_name_acquired P conn name s in
  ((∃ s', o = Ret () s') ∨ (∃ s', o = Halt InvalidAccess s')) ∧
  dom (chips (ctx s)) ⊆ dom (chips (ctx (final_state o))) ∧
  dom (chips (ctx (final_state o)))
    ⊆ dom (chips (ctx s)) ∪ list_to_set (device_names (enumerated P name s)) ∧
  (refusals_have_errors P (enumerated P name s) → ∃ s', o = Ret () s').
Proof.
  intros Hnd Habs o. subst o. rewrite on_name_acquired_run.
  exact (foreach_register_distinct P (enumerated P name s) (at_enumeration name s) Hnd Habs).
Qed.

(** X9.  In a consistent registry whose entries are bound to their
    objects, if moreover each listed chip opens and the bus accepts the
    object of a listed device whenever none is exported at its path,
    the enumeration returns, and afterwards the registry holds exactly
    the names it held before and the names of the listed devices that
    have a device file. *)
Theorem enumeration_registers_every_listed_chip P conn name s :
  registry_inv s → entries_bound s →
  chips_open P (enumerated P name s) → accepts_unexported P (enumerated P name s) →
  NoDup (device_names (enumerated P name s)) →
  Forall (λ d, chips (ctx s) !! g_udev_device_get_name d = None) (enumerated P name s) →
  ∃ s', on_name_acquired P conn name s = Ret () s' ∧
        dom (chips (ctx s'))
        = dom (chips (ctx s)) ∪ list_to_set (device_names (enumerated P name s)).
Proof.
  intros I B Ho Ha Hnd Habs. rewrite on_name_acquired_run.
  apply (foreach_register_all P (enumerated P name s) (at_enumeration name s));
    [by apply (registry_inv_frame s)|by apply (entries_bound_frame s)|done..].
Qed.

(** X10.  In a consistent registry, "every entry's back reference is the
    connection of the context and its object id is registered at
    /org/gpiod/<name> with the entry's block as user data" is kept by
    the add-sequence and by the remove-sequence, however they end; it
    holds initially, and after the connection is stored while the
    registry is empty. *)
Theorem entries_stay_bound_to_their_objects P dev s :
  registry_inv s → entries_bound s →
  entries_bound (final_state (register_chip_object P dev s)) ∧
  entries_bound (final_state (destroy_chip_dev dev s)) ∧
  (∀ conn name, chips (ctx s) = ∅ →
     entries_bound (final_state (on_bus_acquired conn name s))) ∧
  entries_bound initial_state.
Proof.
  intros I B. split; [by apply register_keeps_bound|].
  split; [by apply destroy_chip_dev_keeps_bound|].
  split; [intros conn name; apply on_bus_acquired_keeps_bound|apply entries_bound_initial].
Qed.

(** X11.  In a consistent registry whose entries are bound to their
    objects, a device name is registered with a block if and only if
    the bus resolves the path /org/gpiod/<name> to that block: each live
    chip has exactly one object, at the path derived from its name, and
    no other path of that form resolves. *)
Theorem derived_path_resolves_to_the_entry s name p :
  registry_inv s → entries_bound s →
  (chips (ctx s) !! name = Some p ↔ object_at ("/org/gpiod/" +:+ name) s = Some p).
Proof.
  intros I B.
  assert (Hback : ∀ q, object_at ("/org/gpiod/" +:+ name) s = Some q →
                       chips (ctx s) !! name = Some q).
  { intros q Hq. apply object_at_Some in Hq as [i Hi].
    destruct (inv_objects s I i _ q Hi) as (c & Hc & Hid).
    destruct (inv_heap s I q c Hc) as [n Hn].
    destruct (B n q c Hn Hc) as [_ Hobj]. rewrite Hid, Hi in Hobj.
    assert ("/org/gpiod/" +:+ name = "/org/gpiod/" +:+ n) as Hpath by congruence.
    apply derived_path_inj in Hpath. by subst n. }
  split; [|apply Hback]. intros Hn.
  destruct (block_of_entry s name p I Hn) as [c Hc].
  destruct (B name p c Hn Hc) as [_ Hobj].
  destruct (object_at ("/org/gpiod/" +:+ name) s) as [q|] eqn:E.
  - specialize (Hback q eq_refl). congruence.
  - by destruct (object_at_None _ s (obj_id c) p E).
Qed.

(** X12.  As long as no name-acquired event is dispatched, nothing is
    exposed: the uevent handler is not connected, so uevents are not
    processed, and the registry, the heap, the open chips and the bus
    objects stay empty, however the run ends. *)
Theorem nothing_is_exposed_before_the_name_is_acquired P iterations s :
  Forall (Forall (λ e, is_name_acquired e = false)) iterations → unexposed s →
  unexposed (final_state (g_main_loop_run P iterations s)).
Proof.
  intros H Hs. unfold g_main_loop_run. rewrite run_bind. simpl.
  by apply iterate_keeps_unexposed.
Qed.

(** X13.  When [main] exits with status 0 and the command line had no
    help option, every entry has been destroyed: the registry, the heap,
    the open chips and the bus objects are empty, and the last two calls
    are the release of the bus name with the id [g_bus_own_name]
    returned and the message that the daemon exits cleanly. *)
Theorem clean_exit_releases_everything P cmd xml_ok iterations :
  let o := main P cmd xml_ok iterations initial_state in
  help_requested cmd = false →
  exit_status o = Some 0%Z →
  chips (ctx (final_state o)) = ∅ ∧ heap (final_state o) = ∅ ∧
  open_chips (final_state o) = ∅ ∧ bus_objects (final_state o) = ∅ ∧
  ∃ earlier,
    trace (final_state o)
    = (earlier ++ [EvUnownName 1%N; EvLog LevelMessage "%s exiting cleanly" [prgname cmd]])%list.
Proof.
  intros o Hhelp. subst o.
  destruct (parse_ok cmd) eqn:Hp.
  2:{ by rewrite (main_bad_options P cmd xml_ok iterations Hhelp Hp). }
  destruct xml_ok.
  2:{ by rewrite (main_bad_xml P cmd iterations Hhelp). }
  rewrite (main_started P cmd iterations Hhelp Hp), run_bind.
  assert (Hinv : registry_inv (set_loop_running true (started cmd))).
  { by apply (registry_inv_frame (started cmd)), registry_inv_started. }
  assert (Hsound : sound (g_main_loop_run P iterations (started cmd))).
  { unfold g_main_loop_run. rewrite run_bind. simpl. by apply sound_main_loop_iterate. }
  assert (Hid1 : bus_id (ctx (final_state (g_main_loop_run P iterations (started cmd)))) = 1%N).
  { unfold g_main_loop_run. rewrite run_bind. simpl. by rewrite iterate_keeps_bus_id. }
  destruct (g_main_loop_run P iterations (started cmd)) as [[] s1|why s1] eqn:Hloop.
  2:{ destruct why; simpl in *; try done. rewrite Hsound. done. }
  intros _. simpl in Hsound, Hid1.
  destruct (hash_table_destroy_clears s1 Hsound) as (s2 & Hrun & _ & Hc & Hh & Ho & Hb & Hid).
  unfold shutdown. rewrite run_bind, Hrun. simpl.
  repeat split; try done.
  exists (trace s2). by rewrite Hid, Hid1, <- app_assoc.
Qed.

(** X14.  Whenever the add-sequence returns, it has either left the
    context, the heap, the open chips and the bus objects as they were,
    or added exactly one new block, handle, object and entry for a name
    that was not registered; it never returns after replacing an
    existing entry. *)
Theorem add_that_returns_disturbs_no_entry P dev s s' :
  let name := g_udev_device_get_name dev in
  register_chip_object P dev s = Ret () s' →
  same_resources s s' ∨
  (chips (ctx s) !! name = None ∧
   bus (ctx s') = bus (ctx s) ∧
   chips (ctx s') = <[name := new_block s]> (chips (ctx s)) ∧
   heap s'
   = <[new_block s := mkChipCtx (Some (new_handle s)) (new_obj_id s) (bus (ctx s))]> (heap s) ∧
   (∃ info, open_chips s' = <[new_handle s := info]> (open_chips s)) ∧
   bus_objects s' = <[new_obj_id s := (obj_path dev, new_block s)]> (bus_objects s)).
Proof.
  intros name.
  destruct (chip_probe P name (at_open dev s)) as [info|] eqn:Hprobe.
  2:{ rewrite (register_open_fails P dev s Hprobe). intros [= <-]. by left. }
  destruct (bus_accepts P (obj_path dev) (at_register dev info s)) eqn:Hbus.
  2:{ rewrite (register_bus_refuses P dev s info Hprobe Hbus).
      destruct (bus_error P (obj_path dev) (at_register dev info s)); [|done].
      intros [= <-]. by left. }
  rewrite (register_reaches_insert P dev s info Hprobe Hbus).
  destruct (chips (ctx s) !! name) as [old|] eqn:Hk.
  { intros Hrun. by apply (insert_step_on_present_key_never_returns _ _ old) in Hrun. }
  rewrite (insert_step_new _ _ (at_insert dev info s)) by done.
  intros [= <-]. right. simpl. repeat split; try done. by exists info.
Qed.

(** X15.  Across a whole run of the main loop in which no bus-acquired
    event changes the stored connection, the entries of a consistent
    registry stay bound to their objects, however the run ends. *)
Theorem entries_stay_bound_while_the_loop_runs P iterations s :
  Forall (Forall (λ e, is_bus_acquired e = false)) iterations →
  registry_inv s → entries_bound s →
  entries_bound (final_state (g_main_loop_run P iterations s)).
Proof.
  intros H I B. unfold g_main_loop_run. rewrite run_bind. simpl.
  assert (registry_inv (set_loop_running true s)) as I1 by (by apply (registry_inv_frame s)).
  assert (entries_bound (set_loop_running true s)) as B1 by (by apply (entries_bound_frame s)).
  revert I1 B1. generalize (set_loop_running true s). clear s I B.
  induction H as [|ready later Hr _ IH]; intros s I B; [done|].
  simpl. rewrite run_bind.
  assert (entries_bound (final_state (g_list_foreach ready (dispatch P) s)) ∧
          sound (g_list_foreach ready (dispatch P) s)) as [Hb Hs].
  { split; [|by apply sound_foreach; [apply sound_dispatch|]].
    clear IH. revert s I B. induction Hr as [|e ready He _ IHr]; intros s I B; [done|].
    simpl. rewrite run_bind.
    pose proof (dispatch_keeps_bound P e s He I B) as H1.
    pose proof (sound_dispatch P e s I) as H2.
    destruct (dispatch P e s) as [[] s1|]; [|done]. by apply IHr. }
  destruct (g_list_foreach ready (dispatch P) s) as [[] s1|]; [|done].
  unfold get_state. rewrite run_bind. simpl in *.
  destruct (loop_running s1); [by apply IH|done].
Qed.

(** ** The further properties at concrete inputs *)

Lemma log_priority_is_that_of_the_most_severe_level_witness :
  log_level_to_priority (Z.lor G_LOG_LEVEL_CRITICAL (Z.shiftl 1 7))
  = log_level_to_priority G_LOG_LEVEL_CRITICAL.
Proof.
  destruct (log_priority_is_that_of_the_most_severe_level G_LOG_LEVEL_CRITICAL)
    as (_ & _ & H & _).
  apply (H 3%Z 7%Z); [lia|lia|reflexivity].
Defined.

Lemma log_write_prints_the_first_message_witness :
  log_write G_LOG_LEVEL_WARNING sample_fields ""
  = (G_LOG_WRITER_HANDLED, "<4>gpio-dbus started" +:+ newline).
Proof.
  apply (log_write_prints_the_first_message G_LOG_LEVEL_WARNING
           [mkField "PRIORITY" (Some "4")] (mkField "MESSAGE" (Some "gpio-dbus started"))
           [mkField "MESSAGE" (Some "ignored")] "").
  - repeat constructor. discriminate.
  - reflexivity.
Defined.

Lemma log_write_without_message_is_unhandled_witness :
  log_write G_LOG_LEVEL_DEBUG [mkField "PRIORITY" (Some "7")] "earlier"
  = (G_LOG_WRITER_UNHANDLED, "earlier").
Proof.
  apply (log_write_without_message_is_unhandled G_LOG_LEVEL_DEBUG
           [mkField "PRIORITY" (Some "7")] "earlier").
  repeat constructor. discriminate.
Defined.

Lemma hangup_is_ignored_witness :
  main_loop_iterate friendly [[SIGHUP; SIGHUP]; [SIGHUP]] (set_loop_running true active)
  = Halt LoopIdle
      (with_new_events [sighup_msg; sighup_msg; sighup_msg] (set_loop_running true active)).
Proof.
  apply (hangup_is_ignored friendly [[SIGHUP; SIGHUP]; [SIGHUP]]
           (set_loop_running true active)).
  - repeat constructor.
  - reflexivity.
Defined.

Lemma quit_signal_stops_the_loop_after_its_iteration_witness :
  ∃ s', main_loop_iterate friendly
          [[SIGINT; UEvent "remove" gpiochip0]; [UEvent "remove" gpiochip1]]
          (set_loop_running true active)
        = Ret () s' ∧
        loop_running s' = false ∧ dom (chips (ctx s')) = {["gpiochip1"]}.
Proof.
  exists (final_state (g_list_foreach [SIGINT; UEvent "remove" gpiochip0] (dispatch friendly)
                         (set_loop_running true active))).
  assert (Hrun : g_list_foreach [SIGINT; UEvent "remove" gpiochip0] (dispatch friendly)
                   (set_loop_running true active)
                 = Ret () (final_state (g_list_foreach [SIGINT; UEvent "remove" gpiochip0]
                                          (dispatch friendly)
                                          (set_loop_running true active))))
    by (vm_compute; reflexivity).
  destruct (quit_signal_stops_the_loop_after_its_iteration friendly
              [SIGINT; UEvent "remove" gpiochip0] [[UEvent "remove" gpiochip1]]
              (set_loop_running true active) _ eq_refl Hrun) as [H1 H2].
  split; [exact H1|]. split; [exact H2|]. vm_compute. reflexivity.
Defined.

Lemma unknown_uevent_action_only_warns_witness :
  dispatch friendly (UEvent "change" gpiochip0) active
  = Ret () (with_new_events [uevent_msg "change" gpiochip0; unknown_action_msg "change"]
              active).
Proof.
  apply (unknown_uevent_action_only_warns friendly "change" gpiochip0 active).
  - eexists. reflexivity.
  - discriminate.
  - discriminate.
Defined.

Lemma remove_undoes_add_witness :
  ∃ s1 s2,
    register_chip_object friendly gpiochip1 one_chip = Ret () s1 ∧
    destroy_chip_dev gpiochip1 s1 = Ret () s2 ∧
    same_resources one_chip s2.
Proof.
  destruct (remove_undoes_add friendly gpiochip1 one_chip
              (mkChipInfo "gpiochip1" "label-gpiochip1" 32))
    as (s1 & s2 & H1 & _ & H2 & H3 & _).
  - vm_compute. reflexivity.
  - reflexivity.
  - reflexivity.
  - exists s1, s2. split; [exact H1|]. split; [exact H2|exact H3].
Defined.

Lemma gdbus_enumeration :
  enumerated gdbus "org.gpiod" initial_state = [gpiochip0; gpiochip1].
Proof. vm_compute. reflexivity. Qed.

Lemma gdbus_enumeration_is_distinct :
  NoDup (device_names (enumerated gdbus "org.gpiod" initial_state)) ∧
  Forall (λ d, chips (ctx initial_state) !! g_udev_device_get_name d = None)
         (enumerated gdbus "org.gpiod" initial_state).
Proof.
  split.
  - apply (bool_decide_unpack _). vm_compute. reflexivity.
  - apply Forall_forall. intros d _. apply lookup_empty.
Qed.

Lemma gdbus_opens_the_listed_chips :
  chips_open gdbus (enumerated gdbus "org.gpiod" initial_state).
Proof. intros dev st _. simpl. eauto. Qed.

Lemma gdbus_accepts_the_listed_chips :
  accepts_unexported gdbus (enumerated gdbus "org.gpiod" initial_state).
Proof.
  intros dev st Hin Hne. rewrite gdbus_enumeration in Hin.
  apply unexported_path_resolves_to_nothing in Hne.
  simpl. rewrite Hne.
  apply elem_of_cons in Hin as [-> |Hin]; [reflexivity|].
  apply elem_of_cons in Hin as [-> |Hin]; [reflexivity|].
  by apply not_elem_of_nil in Hin.
Qed.

Lemma gdbus_sets_the_error_for_the_listed_chips :
  refusals_have_errors gdbus (enumerated gdbus "org.gpiod" initial_state).
Proof.
  intros dev st Hin _. rewrite gdbus_enumeration in Hin. simpl.
  apply elem_of_cons in Hin as [-> |Hin]; [by eexists|].
  apply elem_of_cons in Hin as [-> |Hin]; [by eexists|].
  by apply not_elem_of_nil in Hin.
Qed.

Lemma enumeration_of_distinct_devices_never_aborts_witness :
  ∃ s', on_name_acquired gdbus 1%positive "org.gpiod" initial_state = Ret () s'.
Proof.
  destruct gdbus_enumeration_is_distinct as [Hnd Habs].
  destruct (enumeration_of_distinct_devices_never_aborts gdbus 1%positive "org.gpiod"
              initial_state Hnd Habs) as (_ & _ & _ & H).
  exact (H gdbus_sets_the_error_for_the_listed_chips).
Defined.

Lemma enumeration_registers_every_listed_chip_witness :
  ∃ s', on_name_acquired gdbus 1%positive "org.gpiod" initial_state = Ret () s' ∧
        dom (chips (ctx s'))
        = dom (chips (ctx initial_state)) ∪
          list_to_set (device_names (enumerated gdbus "org.gpiod" initial_state)).
Proof.
  destruct gdbus_enumeration_is_distinct as [Hnd Habs].
  exact (enumeration_registers_every_listed_chip gdbus 1%positive "org.gpiod"
           initial_state registry_inv_initial entries_bound_initial
           gdbus_opens_the_listed_chips gdbus_accepts_the_listed_chips Hnd Habs).
Defined.

Lemma entries_stay_bound_to_their_objects_witness :
  entries_bound (final_state (destroy_chip_dev gpiochip0 one_chip)).
Proof.
  destruct (entries_stay_bound_to_their_objects friendly gpiochip0 one_chip
              registry_inv_one_chip entries_bound_one_chip) as (_ & H & _).
  exact H.
Defined.

Lemma derived_path_resolves_to_the_entry_witness :
  object_at "/org/gpiod/gpiochip0" one_chip = Some 1%positive.
Proof.
  apply (derived_path_resolves_to_the_entry one_chip "gpiochip0" 1%positive
           registry_inv_one_chip entries_bound_one_chip).
  vm_compute. reflexivity.
Defined.

Lemma nothing_is_exposed_before_the_name_is_acquired_witness :
  unexposed (final_state
               (g_main_loop_run friendly
                  [[BusAcquired 1%positive "org.gpiod"; UEvent "add" gpiochip0]; [SIGHUP]]
                  (started plain_cmd))).
Proof.
  apply (nothing_is_exposed_before_the_name_is_acquired friendly
           [[BusAcquired 1%positive "org.gpiod"; UEvent "add" gpiochip0]; [SIGHUP]]
           (started plain_cmd)).
  - repeat constructor.
  - repeat split; reflexivity.
Defined.

Lemma clean_exit_releases_everything_witness :
  open_chips (final_state (main friendly plain_cmd true until_sigterm initial_state)) = ∅ ∧
  bus_objects (final_state (main friendly plain_cmd true until_sigterm initial_state)) = ∅.
Proof.
  destruct (clean_exit_releases_everything friendly plain_cmd true until_sigterm)
    as (_ & _ & Ho & Hb & _).
  - reflexivity.
  - vm_compute. reflexivity.
  - split; [exact Ho|exact Hb].
Defined.

Lemma add_that_returns_disturbs_no_entry_witness :
  same_resources one_chip (final_state (register_chip_object deaf_bus gpiochip0 one_chip)).
Proof.
  destruct (add_that_returns_disturbs_no_entry deaf_bus gpiochip0 one_chip
              (final_state (register_chip_object deaf_bus gpiochip0 one_chip)))
    as [H|(Habs & _)].
  - vm_compute. reflexivity.
  - exact H.
  - vm_compute in Habs. discriminate Habs.
Defined.

Lemma entries_stay_bound_while_the_loop_runs_witness :
  entries_bound (final_state
                   (g_main_loop_run friendly
                      [[NameAcquired 1%positive "org.gpiod"]; [UEvent "remove" gpiochip0]]
                      (started plain_cmd))).
Proof.
  apply (entries_stay_bound_while_the_loop_runs friendly
           [[NameAcquired 1%positive "org.gpiod"]; [UEvent "remove" gpiochip0]]
           (started plain_cmd)).
  - repeat constructor.
  - apply registry_inv_started.
  - intros n p c. simpl. intros H. by rewrite lookup_empty in H.
Defined.
